(** * umake-website: the scroll colour watcher and the rolling voxel field

    A shallow embedding of [src/script.js] and the properties its
    specification states about it.

    Number model.  JavaScript numbers are modelled as the real numbers [R]:
    the arithmetic of the script is read as exact arithmetic, and rounding of
    IEEE doubles is outside the model.  [Math.floor] is [Int_part], [Math.abs]
    is [Rabs], [Math.sin]/[Math.cos]/[Math.PI] are [sin]/[cos]/[PI].

    Randomness.  [Math.random] is an explicit source: a function [nat -> R]
    giving the successive values, read through a cursor that every call
    advances.  Its contract (values in [0, 1)) is a hypothesis where needed.

    Objects.  three.js vectors and quaternions are mutable objects; the
    script always copies before it mutates ([clone], [copy]) and never
    shares one between two fields, so they are modelled as values. *)

From Stdlib Require Import Reals Lra Lia RNsatz ZArith List String Bool.
Import ListNotations.
Open Scope R_scope.

(* ------------------------------------------------------------------ *)
(** ** JavaScript numbers and arrays *)

Module Js.

(** [Math.floor], as an integer. *)
Definition Math_floor (a : R) : Z := Int_part a.

Definition Math_abs (a : R) : R := Rabs a.

(** Comparisons as booleans. *)
Definition gt (a b : R) : bool := if Rgt_dec a b then true else false.
Definition ge (a b : R) : bool := if Rge_dec a b then true else false.
Definition le (a b : R) : bool := if Rle_dec a b then true else false.

(** [arr[i]] for an integer-valued index: [undefined] outside the array. *)
Definition index {A : Type} (arr : list A) (i : Z) : option A :=
  if (i <? 0)%Z then None else nth_error arr (Z.to_nat i).

End Js.

(* ------------------------------------------------------------------ *)
(** ** The three.js operations the script calls

    [Vector3] and [Quaternion] with the methods used by [RollingVoxel],
    written as the library computes them. *)

Module THREE.

Record Vector3 := Vec3 { x : R; y : R; z : R }.
Record Quaternion := Quat { qx : R; qy : R; qz : R; qw : R }.

(** [new THREE.Quaternion()] *)
Definition identity : Quaternion := Quat 0 0 0 1.

Definition add (a v : Vector3) : Vector3 :=
  Vec3 (x a + x v) (y a + y v) (z a + z v).

Definition sub (a v : Vector3) : Vector3 :=
  Vec3 (x a - x v) (y a - y v) (z a - z v).

Definition multiplyScalar (a : Vector3) (s : R) : Vector3 :=
  Vec3 (x a * s) (y a * s) (z a * s).

(** [q.setFromAxisAngle(axis, angle)]; the axis is assumed normalised by
    the library and is not renormalised. *)
Definition setFromAxisAngle (axis : Vector3) (angle : R) : Quaternion :=
  let halfAngle := angle / 2 in
  let s := sin halfAngle in
  Quat (x axis * s) (y axis * s) (z axis * s) (cos halfAngle).

Definition multiplyQuaternions (a b : Quaternion) : Quaternion :=
  Quat (qx a * qw b + qw a * qx b + qy a * qz b - qz a * qy b)
       (qy a * qw b + qw a * qy b + qz a * qx b - qx a * qz b)
       (qz a * qw b + qw a * qz b + qx a * qy b - qy a * qx b)
       (qw a * qw b - qx a * qx b - qy a * qy b - qz a * qz b).

(** [this.premultiply(q)] is [q * this]. *)
Definition premultiply (this q : Quaternion) : Quaternion :=
  multiplyQuaternions q this.

(** [v.applyQuaternion(q)]: [t = 2 (q.xyz × v)], [v + q.w t + q.xyz × t]. *)
Definition applyQuaternion (v : Vector3) (q : Quaternion) : Vector3 :=
  let tx := 2 * (qy q * z v - qz q * y v) in
  let ty := 2 * (qz q * x v - qx q * z v) in
  let tz := 2 * (qx q * y v - qy q * x v) in
  Vec3 (x v + qw q * tx + qy q * tz - qz q * ty)
       (y v + qw q * ty + qz q * tx - qx q * tz)
       (z v + qw q * tz + qx q * ty - qy q * tx).

Definition applyAxisAngle (v axis : Vector3) (angle : R) : Vector3 :=
  applyQuaternion v (setFromAxisAngle axis angle).

(** [q.setFromEuler(e)] for the default order XYZ.  [mesh.rotation] and
    [mesh.quaternion] are kept in step by the library: setting the Euler
    angles recomputes the quaternion with this function. *)
Definition setFromEuler (ex ey ez : R) : Quaternion :=
  let c1 := cos (ex / 2) in
  let c2 := cos (ey / 2) in
  let c3 := cos (ez / 2) in
  let s1 := sin (ex / 2) in
  let s2 := sin (ey / 2) in
  let s3 := sin (ez / 2) in
  Quat (s1 * c2 * c3 + c1 * s2 * s3)
       (c1 * s2 * c3 - s1 * c2 * s3)
       (c1 * c2 * s3 + s1 * s2 * c3)
       (c1 * c2 * c3 - s1 * s2 * s3).

End THREE.

(* ------------------------------------------------------------------ *)
(** ** Effects: the random source and uncaught errors *)

(** The values [Math.random] returns, in order. *)
Definition Rand := nat -> R.

(** A computation reads the source from a cursor and either returns a value
    with the new cursor, or raises an uncaught [TypeError] ([None]). *)
Definition M (A : Type) : Type := Rand -> nat -> option (A * nat).

Definition ret {A : Type} (a : A) : M A := fun _ k => Some (a, k).

Definition bind {A B : Type} (m : M A) (f : A -> M B) : M B :=
  fun rnd k =>
    match m rnd k with
    | Some (a, k') => f a rnd k'
    | None => None
    end.

Definition throw {A : Type} : M A := fun _ _ => None.

Definition Math_random : M R := fun rnd k => Some (rnd k, S k).

Notation "x <- m ;; f" := (bind m (fun x => f))
  (at level 61, m at next level, right associativity).

(** The contract of [Math.random]. *)
Definition unit_interval (rnd : Rand) : Prop := forall i, 0 <= rnd i < 1.

(* ------------------------------------------------------------------ *)
(** ** Tunable parameters *)

Module SETTINGS.
Definition zoom : R := 24.
Definition voxelCount : nat := 50.
Definition gridOpacity : R := 0.08.
Definition moveSpeed : R := 0.06.
Definition maxWaitTime : R := 4000.
Definition shadingIntensity : R := 0.8.
Definition spawnRange : R := 90.
Definition colors : list Z := [0xFFC72C; 0x3b82f6; 0xffffff]%Z.
End SETTINGS.

(* ------------------------------------------------------------------ *)
(** ** Trigger watcher: background change on scroll *)

Module Watcher.

(** A [.bg-trigger] section of the document, with its attributes. *)
Record Element := { attributes : list (string * string) }.

(** [el.getAttribute(name)]: [null] when the attribute is absent. *)
Fixpoint lookup (name : string) (attrs : list (string * string)) : option string :=
  match attrs with
  | [] => None
  | (k, v) :: rest => if String.eqb k name then Some v else lookup name rest
  end.

Definition getAttribute (el : Element) (name : string) : option string :=
  lookup name (attributes el).

(** An [IntersectionObserverEntry], with the fields the script and the
    host's notification rule use. *)
Record Entry := {
  isIntersecting : bool;
  intersectionRatio : R;
  target : Element
}.

(** [options]. *)
Definition threshold : R := 0.4.

(** [body.style.backgroundColor]: the shared background colour.
    Assigning [null] stores the empty string. *)
Record Body := { backgroundColor : string }.

Definition set_backgroundColor (color : option string) (b : Body) : Body :=
  match color with
  | Some c => {| backgroundColor := c |}
  | None => {| backgroundColor := EmptyString |}
  end.

(** The body of the [entries.forEach] arrow function. *)
Definition on_entry (body : Body) (entry : Entry) : Body :=
  if isIntersecting entry then
    let color := getAttribute (target entry) "data-color" in
    set_backgroundColor color body
  else body.

(** The observer callback: the entries of one batch, in order. *)
Definition callback (entries : list Entry) (body : Body) : Body :=
  fold_left on_entry entries body.

(** The host side.  An observer with the single threshold [t] queues an
    entry for a target when the target's visible fraction moves from one
    side of [t] to the other, or when it starts or stops intersecting;
    the entry carries the new fraction. *)
Definition thresholdIndex (t ratio : R) : nat :=
  if Js.ge ratio t then 1%nat else 0%nat.

Definition intersects (ratio : R) : bool := Js.gt ratio 0.

Definition notify (t : R) (el : Element) (previous current : R) : option Entry :=
  if Nat.eqb (thresholdIndex t previous) (thresholdIndex t current)
     && Bool.eqb (intersects previous) (intersects current)
  then None
  else Some {| isIntersecting := intersects current;
               intersectionRatio := current;
               target := el |}.

End Watcher.

(* ------------------------------------------------------------------ *)
(** ** Voxel logic *)

Import THREE.

(** [this.mesh]: the transform of the cube and the colour of its material
    ([undefined] when the palette lookup misses). *)
Record Mesh := {
  color : option Z;
  position : Vector3;
  quaternion : Quaternion
}.

(** A [RollingVoxel].  The six fields of a roll are [undefined] ([None])
    until the first [startRoll] assigns them. *)
Record RollingVoxel := {
  size : R;
  mesh : Mesh;
  isMoving : bool;
  waitTimer : R;
  rollProgress : option R;
  direction : option Vector3;
  axis : option Vector3;
  pivot : option Vector3;
  startPosition : option Vector3;
  startQuaternion : option Quaternion
}.

Definition set_position (p : Vector3) (m : Mesh) : Mesh :=
  {| color := color m; position := p; quaternion := quaternion m |}.

Definition set_quaternion (q : Quaternion) (m : Mesh) : Mesh :=
  {| color := color m; position := position m; quaternion := q |}.

Definition set_mesh (m : Mesh) (v : RollingVoxel) : RollingVoxel :=
  {| size := size v; mesh := m; isMoving := isMoving v;
     waitTimer := waitTimer v; rollProgress := rollProgress v;
     direction := direction v; axis := axis v; pivot := pivot v;
     startPosition := startPosition v; startQuaternion := startQuaternion v |}.

Definition set_isMoving (b : bool) (v : RollingVoxel) : RollingVoxel :=
  {| size := size v; mesh := mesh v; isMoving := b;
     waitTimer := waitTimer v; rollProgress := rollProgress v;
     direction := direction v; axis := axis v; pivot := pivot v;
     startPosition := startPosition v; startQuaternion := startQuaternion v |}.

Definition set_waitTimer (w : R) (v : RollingVoxel) : RollingVoxel :=
  {| size := size v; mesh := mesh v; isMoving := isMoving v;
     waitTimer := w; rollProgress := rollProgress v;
     direction := direction v; axis := axis v; pivot := pivot v;
     startPosition := startPosition v; startQuaternion := startQuaternion v |}.

Definition set_rollProgress (p : R) (v : RollingVoxel) : RollingVoxel :=
  {| size := size v; mesh := mesh v; isMoving := isMoving v;
     waitTimer := waitTimer v; rollProgress := Some p;
     direction := direction v; axis := axis v; pivot := pivot v;
     startPosition := startPosition v; startQuaternion := startQuaternion v |}.

(** [reset(isInitial)]; the argument is unused by the body. *)
Definition reset (v : RollingVoxel) : M RollingVoxel :=
  let r := SETTINGS.spawnRange in
  u1 <- Math_random ;;
  u2 <- Math_random ;;
  let v := set_mesh (set_position
                       (Vec3 (IZR (Js.Math_floor ((u1 - 0.5) * r)))
                             0
                             (IZR (Js.Math_floor ((u2 - 0.5) * r))))
                       (mesh v)) v in
  let v := set_mesh (set_quaternion (setFromEuler 0 0 0) (mesh v)) v in
  u3 <- Math_random ;;
  let v := set_waitTimer (u3 * SETTINGS.maxWaitTime) v in
  ret (set_isMoving false v).

(** The table of moves in [startRoll]: travel direction and rotation axis. *)
Definition dirs : list (Vector3 * Vector3) :=
  [ (Vec3 1 0 0, Vec3 0 0 (-1));      (* Right *)
    (Vec3 (-1) 0 0, Vec3 0 0 1);      (* Left *)
    (Vec3 0 0 1, Vec3 1 0 0);         (* Forward *)
    (Vec3 0 0 (-1), Vec3 (-1) 0 0) ]. (* Backward *)

(** The pivot of a roll: on the bottom edge in the direction of movement. *)
Definition pivot_of (sz : R) (pos dir : Vector3) : Vector3 :=
  add (add pos (multiplyScalar dir (sz / 2))) (Vec3 0 (- sz / 2) 0).

Definition startRoll (v : RollingVoxel) : M RollingVoxel :=
  u <- Math_random ;;
  match Js.index dirs (Js.Math_floor (u * 4)) with
  | None => throw  (* [move] is undefined: reading [move.vec] raises *)
  | Some (vec, ax) =>
      ret {| size := size v; mesh := mesh v;
             isMoving := true;
             waitTimer := waitTimer v;
             rollProgress := Some 0;
             direction := Some vec;
             axis := Some ax;
             pivot := Some (pivot_of (size v) (position (mesh v)) vec);
             startPosition := Some (position (mesh v));
             startQuaternion := Some (quaternion (mesh v)) |}
  end.

(** The end step of [animateRoll] up to the despawn check: the snap. *)
Definition snap (v : RollingVoxel) (sp d ax : Vector3) (sq : Quaternion)
  : M RollingVoxel :=
  let v := set_isMoving false v in
  let v := set_mesh (set_position (add sp d) (mesh v)) v in
  let endRotation := setFromAxisAngle ax (PI / 2) in
  let v := set_mesh (set_quaternion (premultiply sq endRotation) (mesh v)) v in
  u <- Math_random ;;
  ret (set_waitTimer (u * SETTINGS.maxWaitTime) v).

(** The despawn check after the snap. *)
Definition past_range (p : Vector3) : bool :=
  Js.gt (Js.Math_abs (x p)) SETTINGS.spawnRange
  || Js.gt (Js.Math_abs (z p)) SETTINGS.spawnRange.

(** The else branch of [animateRoll]: the rolling math. *)
Definition roll_to (v : RollingVoxel) (progress : R)
           (sp pv ax : Vector3) (sq : Quaternion) : RollingVoxel :=
  let angle := (PI / 2) * progress in
  let p := add (applyAxisAngle (sub sp pv) ax angle) pv in
  let stepRotation := setFromAxisAngle ax angle in
  set_mesh (set_quaternion (premultiply sq stepRotation)
              (set_position p (mesh v))) v.

(** [animateRoll()].  Called before any [startRoll], the fields it reads are
    [undefined] and copying from them raises. *)
Definition animateRoll (v : RollingVoxel) : M RollingVoxel :=
  match rollProgress v, direction v, axis v, pivot v,
        startPosition v, startQuaternion v with
  | Some rp, Some d, Some ax, Some pv, Some sp, Some sq =>
      let v := set_rollProgress (rp + SETTINGS.moveSpeed) v in
      let progress := rp + SETTINGS.moveSpeed in
      if Js.ge progress 1 then
        v <- snap v sp d ax sq ;;
        if past_range (position (mesh v)) then reset v else ret v
      else
        ret (roll_to v progress sp pv ax sq)
  | _, _, _, _, _, _ => throw
  end.

(** [step(deltaTime)]. *)
Definition step (deltaTime : R) (v : RollingVoxel) : M RollingVoxel :=
  if isMoving v then animateRoll v
  else
    let v := set_waitTimer (waitTimer v - deltaTime) v in
    if Js.le (waitTimer v) 0 then startRoll v else ret v.

(** [new RollingVoxel()]: the palette draw, then [reset(true)].  A new mesh
    sits at the origin with the identity rotation; [waitTimer] is first
    assigned by [reset], which does not read it. *)
Definition new_RollingVoxel : M RollingVoxel :=
  u <- Math_random ;;
  let c := Js.index SETTINGS.colors
             (Js.Math_floor (u * INR (List.length SETTINGS.colors))) in
  reset {| size := 1;
           mesh := {| color := c; position := Vec3 0 0 0; quaternion := identity |};
           isMoving := false;
           waitTimer := 0;
           rollProgress := None; direction := None; axis := None;
           pivot := None; startPosition := None; startQuaternion := None |}.

(* ------------------------------------------------------------------ *)
(** ** The animation loop *)

(** The module-level state of the loop. *)
Record World := {
  lastTime : R;
  voxels : list RollingVoxel
}.

(** [arr.forEach(f)] for an [f] that updates its element in place. *)
Fixpoint forEach (f : RollingVoxel -> M RollingVoxel) (arr : list RollingVoxel)
  : M (list RollingVoxel) :=
  match arr with
  | [] => ret []
  | v :: rest =>
      v' <- f v ;;
      rest' <- forEach f rest ;;
      ret (v' :: rest')
  end.

(** [Array.from({ length: n }, () => new RollingVoxel())]. *)
Fixpoint spawn (n : nat) : M (list RollingVoxel) :=
  match n with
  | O => ret []
  | S n' =>
      v <- new_RollingVoxel ;;
      rest <- spawn n' ;;
      ret (v :: rest)
  end.

Definition init : M World :=
  vs <- spawn SETTINGS.voxelCount ;;
  ret {| lastTime := 0; voxels := vs |}.

(** [animate(time)]; rendering and the request for the next frame do not
    change the state of the voxels. *)
Definition animate (time : R) (w : World) : M World :=
  let deltaTime := time - lastTime w in
  vs <- forEach (step deltaTime) (voxels w) ;;
  ret {| lastTime := time; voxels := vs |}.

(** A run of frames at the given timestamps. *)
Fixpoint frames (times : list R) (w : World) : M (list World) :=
  match times with
  | [] => ret []
  | t :: rest =>
      w' <- animate t w ;;
      ws <- frames rest w' ;;
      ret (w' :: ws)
  end.

(** A run of [step] calls on one voxel, with the state after each call. *)
Fixpoint steps (deltas : list R) (v : RollingVoxel) : M (list RollingVoxel) :=
  match deltas with
  | [] => ret []
  | dt :: rest =>
      v' <- step dt v ;;
      vs <- steps rest v' ;;
      ret (v' :: vs)
  end.

(** The state after a run of [step] calls. *)
Fixpoint run (deltas : list R) (v : RollingVoxel) : M RollingVoxel :=
  match deltas with
  | [] => ret v
  | dt :: rest => v' <- step dt v ;; run rest v'
  end.

(* ------------------------------------------------------------------ *)
(** ** Isometric camera, renderer size and the resize handler *)

Module Scene.

(** [window.innerWidth] and [window.innerHeight]. *)
Record Window := { innerWidth : R; innerHeight : R }.

(** The frustum of a [THREE.OrthographicCamera]. *)
Record OrthographicCamera := {
  left : R; right : R; top : R; bottom : R; near : R; far : R
}.

(** The drawing-buffer size kept by [renderer.setSize]. *)
Record Renderer := { width : R; height : R }.

(** [new THREE.OrthographicCamera(-d * aspect, d * aspect, d, -d, 1, 1000)]. *)
Definition new_camera (win : Window) : OrthographicCamera :=
  let aspect := innerWidth win / innerHeight win in
  let d := SETTINGS.zoom in
  {| left := - d * aspect; right := d * aspect; top := d; bottom := - d;
     near := 1; far := 1000 |}.

Definition setSize (w h : R) (r : Renderer) : Renderer :=
  {| width := w; height := h |}.

(** The [resize] listener. *)
Definition on_resize (win : Window) (camera : OrthographicCamera) (r : Renderer)
  : OrthographicCamera * Renderer :=
  let aspect := innerWidth win / innerHeight win in
  ({| left := - SETTINGS.zoom * aspect;
      right := SETTINGS.zoom * aspect;
      top := SETTINGS.zoom;
      bottom := - SETTINGS.zoom;
      near := near camera; far := far camera |},
   setSize (innerWidth win) (innerHeight win) r).

End Scene.

(* ------------------------------------------------------------------ *)
(** ** Predicates of the specification *)

(** [p] is the lattice point drawn from the random values [u1] and [u2]:
    on the ground, in [-45, 44] on both horizontal axes. *)
Definition spawned_at (p : Vector3) (u1 u2 : R) : Prop :=
  x p = IZR (Js.Math_floor ((u1 - 0.5) * 90)) /\
  y p = 0 /\
  z p = IZR (Js.Math_floor ((u2 - 0.5) * 90)) /\
  -45 <= x p <= 44 /\
  -45 <= z p <= 44 /\
  Rabs (x p) <= SETTINGS.spawnRange / 2 /\
  Rabs (z p) <= SETTINGS.spawnRange / 2.

(** The six fields of a roll are assigned, with these values. *)
Definition roll_fields (v : RollingVoxel) (rp : R) (d ax pv sp : Vector3)
           (sq : Quaternion) : Prop :=
  rollProgress v = Some rp /\
  direction v = Some d /\
  axis v = Some ax /\
  pivot v = Some pv /\
  startPosition v = Some sp /\
  startQuaternion v = Some sq.

(** Rotation of [v] by [angle] about the unit vector [a], as the textbook
    formula has it: [v cos t + (a × v) sin t + a (a · v) (1 - cos t)]. *)
Definition dot (a v : Vector3) : R := x a * x v + y a * y v + z a * z v.

Definition cross (a v : Vector3) : Vector3 :=
  Vec3 (y a * z v - z a * y v) (z a * x v - x a * z v) (x a * y v - y a * x v).

Definition rotate_about (a : Vector3) (angle : R) (v : Vector3) : Vector3 :=
  add (add (multiplyScalar v (cos angle))
           (multiplyScalar (cross a v) (sin angle)))
      (multiplyScalar a (dot a v * (1 - cos angle))).

Definition unit_vector (a : Vector3) : Prop := dot a a = 1.

(** [p] is one cell away from [sp] along exactly one horizontal axis. *)
Definition one_cell_from (sp p : Vector3) : Prop :=
  y p = y sp /\
  (((x p = x sp + 1 \/ x p = x sp - 1) /\ z p = z sp) \/
   ((z p = z sp + 1 \/ z p = z sp - 1) /\ x p = x sp)).

(** The state the snap leaves: the end step of [animateRoll] before the
    despawn check, after the progress [p] was stored and the wait [u]
    drawn. *)
Definition snapped (v : RollingVoxel) (p u : R) (sp d ax : Vector3)
           (sq : Quaternion) : RollingVoxel :=
  {| size := size v;
     mesh := {| color := color (mesh v);
                position := add sp d;
                quaternion := multiplyQuaternions (setFromAxisAngle ax (PI / 2)) sq |};
     isMoving := false;
     waitTimer := u * SETTINGS.maxWaitTime;
     rollProgress := Some p;
     direction := direction v; axis := axis v; pivot := pivot v;
     startPosition := startPosition v;
     startQuaternion := startQuaternion v |}.

(** The state [startRoll] leaves when it picks the move [(d, ax)]. *)
Definition started (v : RollingVoxel) (d ax : Vector3) : RollingVoxel :=
  {| size := size v; mesh := mesh v;
     isMoving := true;
     waitTimer := waitTimer v;
     rollProgress := Some 0;
     direction := Some d;
     axis := Some ax;
     pivot := Some (add (add (position (mesh v)) (multiplyScalar d (size v / 2)))
                        (Vec3 0 (- size v / 2) 0));
     startPosition := Some (position (mesh v));
     startQuaternion := Some (quaternion (mesh v)) |}.

(** Integer-valued numbers and lattice points. *)
Definition integral (a : R) : Prop := exists n : Z, a = IZR n.

Definition on_lattice (p : Vector3) : Prop :=
  integral (x p) /\ integral (y p) /\ integral (z p).

(** The world axes, and the six unit vectors along them. *)
Definition world_axes : list Vector3 := [Vec3 1 0 0; Vec3 0 1 0; Vec3 0 0 1].

Definition signed_world_axes : list Vector3 :=
  [Vec3 1 0 0; Vec3 (-1) 0 0; Vec3 0 1 0; Vec3 0 (-1) 0; Vec3 0 0 1; Vec3 0 0 (-1)].

(** An orientation that is a multiple of 90 degrees about a world axis. *)
Definition quarter_turns (q : Quaternion) : Prop :=
  exists a (n : Z), In a world_axes /\ q = setFromAxisAngle a (IZR n * (PI / 2)).

(** An orientation composed of 90 degree turns about world axes. *)
Inductive cube_orientation : Quaternion -> Prop :=
| cube_identity : cube_orientation identity
| cube_turn (q : Quaternion) (a : Vector3) :
    cube_orientation q ->
    In a signed_world_axes ->
    cube_orientation (multiplyQuaternions (setFromAxisAngle a (PI / 2)) q).

(** The state of a voxel at rest, as the specification words it, and with
    the orientation composed of quarter turns. *)
Definition at_rest_single_turn (v : RollingVoxel) : Prop :=
  on_lattice (position (mesh v)) /\ quarter_turns (quaternion (mesh v)).

Definition at_rest (v : RollingVoxel) : Prop :=
  on_lattice (position (mesh v)) /\ cube_orientation (quaternion (mesh v)).

(** The invariant of the state machine: at rest when idle; while rolling,
    the fields of the roll are assigned, the move is one of the table and
    the snapshots satisfy the rest condition. *)
Definition voxel_inv (v : RollingVoxel) : Prop :=
  if isMoving v then
    exists rp d ax pv sp sq,
      roll_fields v rp d ax pv sp sq /\
      In (d, ax) dirs /\
      on_lattice sp /\
      cube_orientation sq
  else at_rest v.

(** The squared norm of a quaternion. *)
Definition norm2 (q : Quaternion) : R :=
  qx q * qx q + qy q * qy q + qz q * qz q + qw q * qw q.

(** The cube stays aligned with the world axes under [q]: [q] is a unit
    quaternion and turns every signed world axis into a signed world axis. *)
Definition axis_aligned (q : Quaternion) : Prop :=
  norm2 q = 1 /\
  forall e, In e signed_world_axes -> In (applyQuaternion e q) signed_world_axes.

(** A random source for a run of two rolls: palette draw, spawn at the
    origin with no wait, a roll Forward, no wait, a roll Right. *)
Definition two_rolls_rnd : Rand :=
  fun i => nth i [0; 0.5; 0.5; 0; 0.5; 0; 0; 0] 0.

(** An idle voxel at the origin that has not rolled yet, with the given
    wait, as the constructor leaves it. *)
Definition idle_voxel (wait : R) : RollingVoxel :=
  {| size := 1;
     mesh := {| color := Some 0xFFC72C%Z; position := Vec3 0 0 0;
                quaternion := identity |};
     isMoving := false;
     waitTimer := wait;
     rollProgress := None; direction := None; axis := None;
     pivot := None; startPosition := None; startQuaternion := None |}.

(** The two random sources agree from the cursor [k] on. *)
Definition agree_from (k : nat) (r1 r2 : Rand) : Prop :=
  forall i, (k <= i)%nat -> r1 i = r2 i.

(** A computation whose outcome depends on the random source only through
    the values from the cursor on, and which never moves the cursor back. *)
Definition deterministic {A : Type} (m : M A) : Prop :=
  forall r1 r2 k,
    agree_from k r1 r2 ->
    m r1 k = m r2 k /\
    forall a k', m r1 k = Some (a, k') -> (k <= k')%nat.

(** The transform of a voxel: what a frame shows of it. *)
Definition transform (v : RollingVoxel) : Vector3 * Quaternion :=
  (position (mesh v), quaternion (mesh v)).

(** A voxel rolling Right from [sp] with the identity orientation, at the
    progress [rp]. *)
Definition rolling_voxel (sp : Vector3) (rp : R) : RollingVoxel :=
  {| size := 1;
     mesh := {| color := Some 0xFFC72C%Z; position := sp; quaternion := identity |};
     isMoving := true;
     waitTimer := 0;
     rollProgress := Some rp;
     direction := Some (Vec3 1 0 0);
     axis := Some (Vec3 0 0 (-1));
     pivot := Some (pivot_of 1 sp (Vec3 1 0 0));
     startPosition := Some sp;
     startQuaternion := Some identity |}.

(** A section of the page tagged with the colour [c]. *)
Definition section_of (c : string) : Watcher.Element :=
  {| Watcher.attributes := [("class", "bg-trigger"); ("data-color", c)]%string |}.

(** Two random sources that differ before the cursor 3 only. *)
Definition source_a : Rand := fun i => if (i <? 3)%nat then 0.9 else 0.1.
Definition source_b : Rand := fun _ => 0.1.


(** The sum of the elapsed times of a run. *)
Fixpoint total (deltas : list R) : R :=
  match deltas with
  | [] => 0
  | dt :: rest => dt + total rest
  end.

(** The wait [w] outlasts every prefix of the elapsed times. *)
Fixpoint keeps_waiting (w : R) (deltas : list R) : Prop :=
  match deltas with
  | [] => True
  | dt :: rest => w - dt > 0 /\ keeps_waiting (w - dt) rest
  end.

(** The centre of a cube of size [s] that has turned by [angle] about the
    bottom edge ahead of it, starting at [sp] and heading along [d]. *)
Definition arc_position (s : R) (sp d : Vector3) (angle : R) : Vector3 :=
  add (add sp (multiplyScalar d (s / 2 * (1 + sin angle - cos angle))))
      (Vec3 0 (s / 2 * (sin angle + cos angle - 1)) 0).

(** A rest position of the field: on the ground and within the spawn range
    on both horizontal axes. *)
Definition in_field (p : Vector3) : Prop :=
  y p = 0 /\
  Rabs (x p) <= SETTINGS.spawnRange /\
  Rabs (z p) <= SETTINGS.spawnRange.

(** The invariant of a voxel of the field: size 1, a unit quaternion; at
    rest in the field when idle; while rolling, a move of the table, the
    pivot of that move, snapshots taken at rest in the field and the mesh on
    the arc of the roll. *)
Definition field_inv (v : RollingVoxel) : Prop :=
  size v = 1 /\
  norm2 (quaternion (mesh v)) = 1 /\
  if isMoving v then
    exists rp d ax sp sq,
      roll_fields v rp d ax (pivot_of 1 sp d) sp sq /\
      In (d, ax) dirs /\
      0 <= rp < 1 /\
      in_field sp /\
      norm2 sq = 1 /\
      position (mesh v) = arc_position 1 sp d (PI / 2 * rp)
  else in_field (position (mesh v)).

(** A random source for a roll Right followed at once by a roll Left. *)
Definition there_and_back_rnd : Rand :=
  fun i => nth i [0; 0; 0.25; 0] 0.

(** The calls of several rolls in a row: for each roll the call that starts
    it, with the elapsed time [dt], then the elapsed times of its steps. *)
Definition several_rolls (dt : R) (rolls : list (list R)) : list R :=
  List.concat (map (cons dt) rolls).

(** The orientation [q] after [n] quarter turns about [a]. *)
Fixpoint turned (n : nat) (a : Vector3) (q : Quaternion) : Quaternion :=
  match n with
  | O => q
  | S n' => turned n' a (premultiply q (setFromAxisAngle a (PI / 2)))
  end.

(** The quaternion with all four components negated: the same rotation. *)
Definition negated (q : Quaternion) : Quaternion :=
  Quat (- qx q) (- qy q) (- qz q) (- qw q).

(** A voxel as the constructor leaves it: idle, of size 1, unturned, with a
    colour of the palette, on a lattice point of the ground within half the
    spawn range, with a wait below the maximum and no roll started yet. *)
Definition freshly_spawned (v : RollingVoxel) : Prop :=
  isMoving v = false /\
  size v = 1 /\
  quaternion (mesh v) = identity /\
  (exists c, color (mesh v) = Some c /\ In c SETTINGS.colors) /\
  on_lattice (position (mesh v)) /\
  y (position (mesh v)) = 0 /\
  -45 <= x (position (mesh v)) <= 44 /\
  -45 <= z (position (mesh v)) <= 44 /\
  0 <= waitTimer v < SETTINGS.maxWaitTime /\
  rollProgress v = None /\ startPosition v = None.

(** What a frame can show of a voxel: a unit quaternion, the centre at most
    one cell beyond the spawn range and between the rest height and the top
    of the arc; at rest, on the ground within the spawn range. *)
Definition on_stage (v : RollingVoxel) : Prop :=
  norm2 (quaternion (mesh v)) = 1 /\
  0 <= y (position (mesh v)) <= (sqrt 2 - 1) / 2 /\
  Rabs (x (position (mesh v))) <= 91 /\
  Rabs (z (position (mesh v))) <= 91 /\
  (isMoving v = false ->
   y (position (mesh v)) = 0 /\
   Rabs (x (position (mesh v))) <= 90 /\
   Rabs (z (position (mesh v))) <= 90).

(** The voxel [i] of the world is idle. *)
Definition waiting_at (i : nat) (w : World) : Prop :=
  exists u, nth_error (voxels w) i = Some u /\ isMoving u = false.

(* ================================================================== *)
(** * Properties *)

(** ** Numbers *)

Lemma gt_true a b : a > b -> Js.gt a b = true.
Proof. intros H; unfold Js.gt; destruct (Rgt_dec a b); [reflexivity | contradiction]. Qed.

Lemma gt_false a b : a <= b -> Js.gt a b = false.
Proof. intros H; unfold Js.gt; destruct (Rgt_dec a b); [lra | reflexivity]. Qed.

Lemma ge_true a b : a >= b -> Js.ge a b = true.
Proof. intros H; unfold Js.ge; destruct (Rge_dec a b); [reflexivity | contradiction]. Qed.

Lemma ge_false a b : a < b -> Js.ge a b = false.
Proof. intros H; unfold Js.ge; destruct (Rge_dec a b); [lra | reflexivity]. Qed.

Lemma le_true a b : a <= b -> Js.le a b = true.
Proof. intros H; unfold Js.le; destruct (Rle_dec a b); [reflexivity | contradiction]. Qed.

Lemma le_false a b : a > b -> Js.le a b = false.
Proof. intros H; unfold Js.le; destruct (Rle_dec a b); [lra | reflexivity]. Qed.

Lemma floor_eq a k : IZR k <= a < IZR k + 1 -> Js.Math_floor a = k.
Proof. intros H; symmetry; apply Int_part_spec; lra. Qed.

Lemma floor_bounds a :
  IZR (Js.Math_floor a) <= a < IZR (Js.Math_floor a) + 1.
Proof. destruct (base_Int_part a); unfold Js.Math_floor; lra. Qed.

(** The floor of a number of [[lo, hi)] is an integer of [[lo, hi)]. *)
Lemma floor_range a lo hi :
  IZR lo <= a < IZR hi -> (lo <= Js.Math_floor a < hi)%Z.
Proof.
  intros [Hlo Hhi]. destruct (floor_bounds a) as [Hf Hc]. split.
  - assert (H : IZR (lo - 1) < IZR (Js.Math_floor a))
      by (rewrite minus_IZR; lra).
    apply lt_IZR in H. lia.
  - apply lt_IZR. lra.
Qed.

(** A spawn coordinate: [Math.floor((u - 0.5) * 90)] for [u] in [0, 1). *)
Lemma spawn_coordinate u :
  0 <= u < 1 ->
  -45 <= IZR (Js.Math_floor ((u - 0.5) * SETTINGS.spawnRange)) <= 44.
Proof.
  intros Hu. unfold SETTINGS.spawnRange.
  assert (H : (-45 <= Js.Math_floor ((u - 0.5) * 90) < 45)%Z)
    by (apply floor_range; lra).
  destruct H as [H1 H2]. split.
  - apply IZR_le in H1. exact H1.
  - assert (H3 : (Js.Math_floor ((u - 0.5) * 90) <= 44)%Z) by lia.
    apply IZR_le in H3. exact H3.
Qed.

(** ** Quaternions *)

Lemma Vector3_eq a b c a' b' c' :
  a = a' -> b = b' -> c = c' -> Vec3 a b c = Vec3 a' b' c'.
Proof. intros; subst; reflexivity. Qed.

Lemma Quaternion_eq a b c d a' b' c' d' :
  a = a' -> b = b' -> c = c' -> d = d' -> Quat a b c d = Quat a' b' c' d'.
Proof. intros; subst; reflexivity. Qed.

(** [rotation.set(0, 0, 0)] gives the identity quaternion. *)
Lemma setFromEuler_zero : setFromEuler 0 0 0 = identity.
Proof.
  unfold setFromEuler, identity.
  replace (0 / 2) with 0 by lra. rewrite sin_0, cos_0.
  apply Quaternion_eq; lra.
Qed.

(** ** [reset] *)

(** What [reset] returns, field by field. *)
Lemma reset_run v rnd k :
  reset v rnd k =
  Some ({| size := size v;
           mesh := {| color := color (mesh v);
                      position :=
                        Vec3 (IZR (Js.Math_floor ((rnd k - 0.5) * SETTINGS.spawnRange)))
                             0
                             (IZR (Js.Math_floor ((rnd (S k) - 0.5) * SETTINGS.spawnRange)));
                      quaternion := setFromEuler 0 0 0 |};
           isMoving := false;
           waitTimer := rnd (S (S k)) * SETTINGS.maxWaitTime;
           rollProgress := rollProgress v;
           direction := direction v; axis := axis v; pivot := pivot v;
           startPosition := startPosition v;
           startQuaternion := startQuaternion v |},
        S (S (S k))).
Proof. reflexivity. Qed.

(** C10: every [reset] sets each horizontal coordinate to
    [floor((u - 0.5) * 90)] for the next two random values and the vertical
    coordinate to 0; for values of [0, 1) both horizontal coordinates lie in
    [-45, 44], that is within half the spawn range of 90.  The constructor
    spawns through the same [reset], after its palette draw. *)
Theorem reset_position_half_range (rnd : Rand) :
  unit_interval rnd ->
  (forall v k, exists v',
      reset v rnd k = Some (v', S (S (S k))) /\
      spawned_at (position (mesh v')) (rnd k) (rnd (S k))) /\
  (forall k, exists v',
      new_RollingVoxel rnd k = Some (v', S (S (S (S k)))) /\
      spawned_at (position (mesh v')) (rnd (S k)) (rnd (S (S k)))).
Proof.
  intros Hrnd.
  assert (Hspawn : forall i j,
             spawned_at
               (Vec3 (IZR (Js.Math_floor ((rnd i - 0.5) * SETTINGS.spawnRange))) 0
                     (IZR (Js.Math_floor ((rnd j - 0.5) * SETTINGS.spawnRange))))
               (rnd i) (rnd j)).
  { intros i j.
    pose proof (spawn_coordinate _ (Hrnd i)) as Hx.
    pose proof (spawn_coordinate _ (Hrnd j)) as Hz.
    unfold spawned_at; cbn [x y z].
    unfold SETTINGS.spawnRange in *.
    repeat split; try reflexivity; try tauto; apply Rabs_le; lra. }
  split.
  - intros v k. rewrite reset_run. eexists. split; [reflexivity |].
    apply Hspawn.
  - intros k. unfold new_RollingVoxel, bind, Math_random.
    rewrite reset_run. eexists. split; [reflexivity |].
    apply Hspawn.
Qed.

(** ** Rotation about an axis *)

(** [applyAxisAngle] about a unit axis is the rotation by that angle. *)
Lemma applyAxisAngle_rotate (v a : Vector3) (angle : R) :
  unit_vector a -> applyAxisAngle v a angle = rotate_about a angle v.
Proof.
  unfold unit_vector, dot. intros Ha.
  unfold applyAxisAngle, applyQuaternion, setFromAxisAngle, rotate_about,
    add, multiplyScalar, cross, dot.
  cbn [x y z qx qy qz qw].
  set (s := sin (angle / 2)). set (c := cos (angle / 2)).
  assert (Hs : sin angle = 2 * s * c)
    by (unfold s, c; rewrite <- sin_2a; f_equal; lra).
  assert (Hc : cos angle = 1 - 2 * s * s)
    by (unfold s; rewrite <- cos_2a_sin; f_equal; lra).
  rewrite Hs, Hc. clearbody s c. clear Hs Hc.
  destruct a as [a1 a2 a3], v as [v1 v2 v3]. cbn [x y z] in *.
  apply Vector3_eq.
  - replace (v1 * (1 - 2 * s * s)) with
      (v1 * (1 - 2 * s * s * (a1 * a1 + a2 * a2 + a3 * a3))) by (rewrite Ha; ring).
    ring.
  - replace (v2 * (1 - 2 * s * s)) with
      (v2 * (1 - 2 * s * s * (a1 * a1 + a2 * a2 + a3 * a3))) by (rewrite Ha; ring).
    ring.
  - replace (v3 * (1 - 2 * s * s)) with
      (v3 * (1 - 2 * s * s * (a1 * a1 + a2 * a2 + a3 * a3))) by (rewrite Ha; ring).
    ring.
Qed.

(** ** The table of moves *)

Ltac each_move H :=
  cbn [dirs In] in H;
  destruct H as [H | [H | [H | [H | []]]]];
  injection H as <- <-.

Lemma dirs_unit_axis d ax : In (d, ax) dirs -> unit_vector ax.
Proof. intros H; each_move H; unfold unit_vector, dot; cbn [x y z]; lra. Qed.

Lemma dirs_one_cell d ax sp : In (d, ax) dirs -> one_cell_from sp (add sp d).
Proof.
  intros H; each_move H; unfold one_cell_from, add; cbn [x y z];
    (split; [lra |]);
    [ left; split; [left |] | left; split; [right |]
    | right; split; [left |] | right; split; [right |] ]; lra.
Qed.

(** ** [animateRoll] *)

Lemma animateRoll_fields v rp d ax pv sp sq :
  roll_fields v rp d ax pv sp sq ->
  animateRoll v =
  (let v := set_rollProgress (rp + SETTINGS.moveSpeed) v in
   let progress := rp + SETTINGS.moveSpeed in
   if Js.ge progress 1 then
     v <- snap v sp d ax sq ;;
     if past_range (position (mesh v)) then reset v else ret v
   else ret (roll_to v progress sp pv ax sq)).
Proof.
  intros (H1 & H2 & H3 & H4 & H5 & H6). unfold animateRoll.
  rewrite H1, H2, H3, H4, H5, H6. reflexivity.
Qed.

Lemma snap_run v p sp d ax sq rnd k :
  snap (set_rollProgress p v) sp d ax sq rnd k =
  Some (snapped v p (rnd k) sp d ax sq, S k).
Proof. reflexivity. Qed.

(** The end step: the snap, then the despawn check on the snapped state. *)
Lemma animateRoll_end v rp d ax pv sp sq rnd k :
  roll_fields v rp d ax pv sp sq ->
  rp + SETTINGS.moveSpeed >= 1 ->
  animateRoll v rnd k =
  (let s := snapped v (rp + SETTINGS.moveSpeed) (rnd k) sp d ax sq in
   if past_range (add sp d) then reset s rnd (S k) else Some (s, S k)).
Proof.
  intros Hf Hp. rewrite (animateRoll_fields _ _ _ _ _ _ _ Hf).
  cbv zeta. rewrite (ge_true _ _ Hp). unfold bind. rewrite snap_run.
  cbn [snapped mesh position].
  destruct (past_range (add sp d)); reflexivity.
Qed.

(** The rolling step. *)
Lemma animateRoll_mid v rp d ax pv sp sq rnd k :
  roll_fields v rp d ax pv sp sq ->
  rp + SETTINGS.moveSpeed < 1 ->
  animateRoll v rnd k =
  Some (roll_to (set_rollProgress (rp + SETTINGS.moveSpeed) v)
          (rp + SETTINGS.moveSpeed) sp pv ax sq, k).
Proof.
  intros Hf Hp. rewrite (animateRoll_fields _ _ _ _ _ _ _ Hf).
  cbv zeta. rewrite (ge_false _ _ Hp). reflexivity.
Qed.

Lemma past_range_true p :
  Rabs (x p) > SETTINGS.spawnRange \/ Rabs (z p) > SETTINGS.spawnRange ->
  past_range p = true.
Proof.
  unfold past_range, Js.Math_abs. intros [H | H].
  - rewrite (gt_true _ _ H). reflexivity.
  - rewrite (gt_true _ _ H). apply orb_true_r.
Qed.

Lemma past_range_false p :
  Rabs (x p) <= SETTINGS.spawnRange -> Rabs (z p) <= SETTINGS.spawnRange ->
  past_range p = false.
Proof.
  unfold past_range, Js.Math_abs. intros Hx Hz.
  rewrite (gt_false _ _ Hx), (gt_false _ _ Hz). reflexivity.
Qed.

(** C1: when the progress reaches 1 the end step of [animateRoll] snaps the
    voxel: the position is the stored start position plus the stored
    direction, so exactly one of x and z changes by exactly 1 or -1 and the
    other two coordinates are unchanged; the orientation is the stored start
    orientation premultiplied by the rotation of exactly [PI / 2] about the
    stored axis, whatever the progress value.  The despawn check then runs
    on that snapped state, and keeps it when it is within range. *)
Theorem roll_completes_snap (v : RollingVoxel) (rp : R) (d ax pv sp : Vector3)
        (sq : Quaternion) (rnd : Rand) (k : nat) :
  roll_fields v rp d ax pv sp sq ->
  In (d, ax) dirs ->
  rp + SETTINGS.moveSpeed >= 1 ->
  exists s,
    snap (set_rollProgress (rp + SETTINGS.moveSpeed) v) sp d ax sq rnd k
      = Some (s, S k) /\
    animateRoll v rnd k =
      (if past_range (position (mesh s)) then reset s rnd (S k)
       else Some (s, S k)) /\
    isMoving s = false /\
    position (mesh s) = add sp d /\
    one_cell_from sp (position (mesh s)) /\
    quaternion (mesh s) = premultiply sq (setFromAxisAngle ax (PI / 2)) /\
    quaternion (mesh s) =
      multiplyQuaternions
        (Quat (x ax / sqrt 2) (y ax / sqrt 2) (z ax / sqrt 2) (1 / sqrt 2)) sq /\
    (forall u, applyAxisAngle u ax (PI / 2) = rotate_about ax (PI / 2) u) /\
    (past_range (add sp d) = false -> animateRoll v rnd k = Some (s, S k)).
Proof.
  intros Hf Hd Hp.
  exists (snapped v (rp + SETTINGS.moveSpeed) (rnd k) sp d ax sq).
  split; [apply snap_run |].
  split; [rewrite (animateRoll_end _ _ _ _ _ _ _ rnd k Hf Hp); reflexivity |].
  cbn [snapped mesh position quaternion isMoving].
  repeat split.
  - apply (dirs_one_cell d ax sp Hd).
  - apply (dirs_one_cell d ax sp Hd).
  - unfold setFromAxisAngle.
    replace (PI / 2 / 2) with (PI / 4) by lra.
    rewrite sin_PI4, cos_PI4. f_equal. apply Quaternion_eq; lra.
  - intros u. apply applyAxisAngle_rotate, (dirs_unit_axis d ax Hd).
  - intros Hr. rewrite (animateRoll_end _ _ _ _ _ _ _ rnd k Hf Hp).
    cbv zeta. rewrite Hr. reflexivity.
Qed.

(** ** The rolling step *)

Lemma step_moving dt v : isMoving v = true -> step dt v = animateRoll v.
Proof. intros H; unfold step; rewrite H; reflexivity. Qed.

(** At angle 0 the rolling math returns the snapshots. *)
Lemma roll_to_zero v sp pv ax sq :
  position (mesh (roll_to v 0 sp pv ax sq)) = sp /\
  quaternion (mesh (roll_to v 0 sp pv ax sq)) = sq.
Proof.
  unfold roll_to, applyAxisAngle, applyQuaternion, setFromAxisAngle,
    premultiply, multiplyQuaternions, add, sub.
  cbn [set_mesh set_quaternion set_position mesh position quaternion
       x y z qx qy qz qw].
  replace (PI / 2 * 0 / 2) with 0 by lra. rewrite sin_0, cos_0.
  destruct sp as [s1 s2 s3], sq as [q1 q2 q3 q4]. cbn [x y z qx qy qz qw].
  split; [apply Vector3_eq | apply Quaternion_eq]; ring.
Qed.

(** C2: a rolling step with the progress still below 1 recomputes the
    transform from the stored snapshots: the position is the start position
    moved to the pivot's frame, rotated by [PI / 2 * progress] about the
    stored axis and moved back; the orientation is that same rotation
    premultiplied onto the start orientation.  The transform of the previous
    frame has no influence, the angle stays within the quarter turn, and at
    progress 0 the formula gives back the start position and orientation. *)
Theorem mid_roll_recomputed (v : RollingVoxel) (rp : R) (d ax pv sp : Vector3)
        (sq : Quaternion) (dt : R) (rnd : Rand) (k : nat) :
  isMoving v = true ->
  roll_fields v rp d ax pv sp sq ->
  unit_vector ax ->
  0 <= rp ->
  rp + SETTINGS.moveSpeed < 1 ->
  let progress := rp + SETTINGS.moveSpeed in
  let angle := PI / 2 * progress in
  exists v',
    step dt v rnd k = Some (v', k) /\
    isMoving v' = true /\
    roll_fields v' progress d ax pv sp sq /\
    position (mesh v') = add (applyAxisAngle (sub sp pv) ax angle) pv /\
    position (mesh v') = add (rotate_about ax angle (sub sp pv)) pv /\
    quaternion (mesh v') = premultiply sq (setFromAxisAngle ax angle) /\
    (forall p0 q0, exists v'',
        step dt (set_mesh (set_quaternion q0 (set_position p0 (mesh v))) v) rnd k
          = Some (v'', k) /\
        mesh v'' = mesh v') /\
    0 < angle < PI / 2 /\
    (forall p, 0 <= p <= 1 -> 0 <= PI / 2 * p <= PI / 2) /\
    position (mesh (roll_to v 0 sp pv ax sq)) = sp /\
    quaternion (mesh (roll_to v 0 sp pv ax sq)) = sq.
Proof.
  intros Hm Hf Hax Hrp Hlt progress angle.
  exists (roll_to (set_rollProgress progress v) progress sp pv ax sq).
  pose proof PI_RGT_0 as Hpi.
  assert (Hspeed : SETTINGS.moveSpeed = 0.06) by reflexivity.
  split.
  { rewrite (step_moving _ _ Hm). apply (animateRoll_mid _ _ _ _ _ _ _ _ _ Hf Hlt). }
  split; [exact Hm |].
  split.
  { destruct Hf as (H1 & H2 & H3 & H4 & H5 & H6).
    unfold roll_fields; cbn. repeat split; assumption. }
  split; [reflexivity |].
  split.
  { cbn [roll_to set_mesh set_quaternion set_position mesh position].
    rewrite (applyAxisAngle_rotate _ _ _ Hax). reflexivity. }
  split; [reflexivity |].
  split.
  { intros p0 q0. eexists. split.
    - rewrite step_moving by exact Hm.
      apply (animateRoll_mid _ rp d ax pv sp sq); [| exact Hlt].
      destruct Hf as (H1 & H2 & H3 & H4 & H5 & H6).
      unfold roll_fields; cbn. repeat split; eassumption.
    - reflexivity. }
  split.
  { unfold angle, progress. rewrite Hspeed in *. split; nra. }
  split.
  { intros p Hp. split; nra. }
  apply roll_to_zero.
Qed.

(** ** The despawn check *)

(** C5: in the step that ends a roll, a snapped position whose x or z
    exceeds the spawn range in absolute value makes [reset] run at once: the
    voxel lands on a freshly drawn lattice point within the spawn range,
    gets a freshly drawn wait time and the identity orientation.  With both
    coordinates within the range the snapped state is kept as it is. *)
Theorem despawn_recycles (v : RollingVoxel) (rp : R) (d ax pv sp : Vector3)
        (sq : Quaternion) (dt : R) (rnd : Rand) (k : nat) :
  isMoving v = true ->
  roll_fields v rp d ax pv sp sq ->
  rp + SETTINGS.moveSpeed >= 1 ->
  unit_interval rnd ->
  (Rabs (x (add sp d)) > SETTINGS.spawnRange \/
   Rabs (z (add sp d)) > SETTINGS.spawnRange ->
   exists v',
     step dt v rnd k = Some (v', S (S (S (S k)))) /\
     spawned_at (position (mesh v')) (rnd (S k)) (rnd (S (S k))) /\
     Rabs (x (position (mesh v'))) <= SETTINGS.spawnRange /\
     Rabs (z (position (mesh v'))) <= SETTINGS.spawnRange /\
     waitTimer v' = rnd (S (S (S k))) * SETTINGS.maxWaitTime /\
     0 <= waitTimer v' < SETTINGS.maxWaitTime /\
     quaternion (mesh v') = identity /\
     isMoving v' = false) /\
  (Rabs (x (add sp d)) <= SETTINGS.spawnRange ->
   Rabs (z (add sp d)) <= SETTINGS.spawnRange ->
   exists v',
     step dt v rnd k = Some (v', S k) /\
     position (mesh v') = add sp d /\
     quaternion (mesh v') = premultiply sq (setFromAxisAngle ax (PI / 2)) /\
     waitTimer v' = rnd k * SETTINGS.maxWaitTime /\
     isMoving v' = false).
Proof.
  intros Hm Hf Hp Hrnd. rewrite (step_moving _ _ Hm).
  rewrite (animateRoll_end _ _ _ _ _ _ _ rnd k Hf Hp). cbv zeta. split.
  - intros Hout. rewrite (past_range_true _ Hout), reset_run.
    eexists. split; [reflexivity |].
    cbn [mesh position quaternion waitTimer isMoving].
    pose proof (spawn_coordinate _ (Hrnd (S k))) as Hx.
    pose proof (spawn_coordinate _ (Hrnd (S (S k)))) as Hz.
    pose proof (Hrnd (S (S (S k)))) as Hw.
    unfold SETTINGS.spawnRange, SETTINGS.maxWaitTime in *.
    assert (Hs : spawned_at
                   (Vec3 (IZR (Js.Math_floor ((rnd (S k) - 0.5) * 90))) 0
                         (IZR (Js.Math_floor ((rnd (S (S k)) - 0.5) * 90))))
                   (rnd (S k)) (rnd (S (S k)))).
    { unfold spawned_at, SETTINGS.spawnRange; cbn [x y z].
      repeat split; try reflexivity; try tauto; apply Rabs_le; lra. }
    split; [exact Hs |]. cbn [x y z].
    split; [apply Rabs_le; lra |].
    split; [apply Rabs_le; lra |].
    split; [reflexivity |].
    split; [lra |].
    split; [apply setFromEuler_zero | reflexivity].
  - intros Hx Hz. rewrite (past_range_false _ Hx Hz).
    eexists. split; [reflexivity |].
    cbn [snapped mesh position quaternion waitTimer isMoving].
    repeat split.
Qed.

(** ** Progress of a roll *)

Lemma roll_fields_progress v rp d ax pv sp sq p m :
  roll_fields v rp d ax pv sp sq ->
  roll_fields (set_mesh m (set_rollProgress p v)) p d ax pv sp sq.
Proof.
  intros (H1 & H2 & H3 & H4 & H5 & H6).
  unfold roll_fields; cbn. repeat split; assumption.
Qed.

(** A run of rolling steps that stays below 1: the progress grows by the
    speed constant per call, whatever the elapsed times; the snapshots stay. *)
Lemma run_rolling deltas :
  forall v rp d ax pv sp sq rnd k,
    isMoving v = true ->
    roll_fields v rp d ax pv sp sq ->
    rp + INR (List.length deltas) * SETTINGS.moveSpeed < 1 ->
    exists v',
      run deltas v rnd k = Some (v', k) /\
      isMoving v' = true /\
      size v' = size v /\
      roll_fields v' (rp + INR (List.length deltas) * SETTINGS.moveSpeed)
                  d ax pv sp sq.
Proof.
  induction deltas as [| dt rest IH]; intros v rp d ax pv sp sq rnd k Hm Hf Hlt.
  - exists v. cbn [List.length INR run] in *.
    split; [reflexivity |]. split; [exact Hm |]. split; [reflexivity |].
    replace (rp + 0 * SETTINGS.moveSpeed) with rp by lra. exact Hf.
  - cbn [List.length] in *. rewrite S_INR in *.
    pose proof (pos_INR (List.length rest)) as Hn.
    assert (Hspeed : SETTINGS.moveSpeed = 0.06) by reflexivity.
    assert (H1 : rp + SETTINGS.moveSpeed < 1) by (rewrite Hspeed in *; nra).
    cbn [run]. unfold bind.
    rewrite (step_moving _ _ Hm), (animateRoll_mid _ _ _ _ _ _ _ rnd k Hf H1).
    set (v1 := roll_to _ _ _ _ _ _).
    destruct (IH v1 (rp + SETTINGS.moveSpeed) d ax pv sp sq rnd k) as (v' & Hr & Hm' & Hs & Hf').
    + exact Hm.
    + apply (roll_fields_progress _ rp). exact Hf.
    + lra.
    + exists v'. split; [exact Hr |]. split; [exact Hm' |].
      split; [rewrite Hs; reflexivity |].
      replace (rp + (INR (List.length rest) + 1) * SETTINGS.moveSpeed)
        with (rp + SETTINGS.moveSpeed + INR (List.length rest) * SETTINGS.moveSpeed)
        by lra.
      exact Hf'.
Qed.

(** C6: while a voxel is rolling, [step] does not look at the elapsed time:
    any two values give the same result, each call adds the speed constant
    to the progress, and a run of calls ramps the progress by that constant
    per call whatever the elapsed times are.  The elapsed time is used by an
    idle voxel only, where it is subtracted from the wait timer and the
    progress is not advanced. *)
Theorem rolling_ignores_elapsed (v : RollingVoxel) (rp : R) (d ax pv sp : Vector3)
        (sq : Quaternion) (rnd : Rand) (k : nat) :
  isMoving v = true ->
  roll_fields v rp d ax pv sp sq ->
  (forall dt1 dt2, step dt1 v rnd k = step dt2 v rnd k) /\
  (forall dt, exists v' k',
      step dt v rnd k = Some (v', k') /\
      rollProgress v' = Some (rp + SETTINGS.moveSpeed)) /\
  (forall deltas,
      rp + INR (List.length deltas) * SETTINGS.moveSpeed < 1 ->
      exists v',
        run deltas v rnd k = Some (v', k) /\
        rollProgress v' =
          Some (rp + INR (List.length deltas) * SETTINGS.moveSpeed)) /\
  (forall w dt w' k',
      isMoving w = false ->
      step dt w rnd k = Some (w', k') ->
      waitTimer w' = waitTimer w - dt /\
      (rollProgress w' = rollProgress w \/ rollProgress w' = Some 0)).
Proof.
  intros Hm Hf. split; [| split; [| split]].
  - intros dt1 dt2. rewrite !(step_moving _ _ Hm). reflexivity.
  - intros dt. rewrite (step_moving _ _ Hm).
    destruct (Rlt_or_le (rp + SETTINGS.moveSpeed) 1) as [Hlt | Hge].
    + rewrite (animateRoll_mid _ _ _ _ _ _ _ rnd k Hf Hlt).
      eexists; eexists; split; reflexivity.
    + rewrite (animateRoll_end _ _ _ _ _ _ _ rnd k Hf (Rle_ge _ _ Hge)).
      cbv zeta. destruct (past_range (add sp d)).
      * rewrite reset_run. eexists; eexists; split; reflexivity.
      * eexists; eexists; split; reflexivity.
  - intros deltas Hlt.
    destruct (run_rolling deltas v rp d ax pv sp sq rnd k Hm Hf Hlt)
      as (v' & Hr & _ & _ & Hf').
    exists v'. split; [exact Hr | apply Hf'].
  - intros w dt w' k' Hw. unfold step. rewrite Hw.
    cbn [set_waitTimer waitTimer].
    destruct (Js.le (waitTimer w - dt) 0).
    + unfold startRoll, bind, Math_random.
      destruct (Js.index dirs _) as [[vec a] |]; [| discriminate].
      intros H; injection H as <- <-. cbn. split; [reflexivity | right; reflexivity].
    + intros H; injection H as <- <-. cbn. split; [reflexivity | left; reflexivity].
Qed.

(** ** Starting a roll *)

(** For a random value of [0, 1) the table lookup succeeds. *)
Lemma choose_move u :
  0 <= u < 1 ->
  exists d ax,
    Js.index dirs (Js.Math_floor (u * 4)) = Some (d, ax) /\ In (d, ax) dirs.
Proof.
  intros Hu.
  assert (H : (0 <= Js.Math_floor (u * 4) < 4)%Z) by (apply floor_range; lra).
  assert (Hc : Js.Math_floor (u * 4) = 0%Z \/ Js.Math_floor (u * 4) = 1%Z \/
               Js.Math_floor (u * 4) = 2%Z \/ Js.Math_floor (u * 4) = 3%Z) by lia.
  destruct Hc as [-> | [-> | [-> | ->]]];
    eexists; eexists; (split; [reflexivity |]); cbn [dirs In]; tauto.
Qed.

Lemma startRoll_run v d ax rnd k :
  Js.index dirs (Js.Math_floor (rnd k * 4)) = Some (d, ax) ->
  startRoll v rnd k = Some (started v d ax, S k).
Proof.
  intros H. unfold startRoll, bind, Math_random. rewrite H. reflexivity.
Qed.

Lemma step_idle_start dt v d ax rnd k :
  isMoving v = false ->
  waitTimer v - dt <= 0 ->
  Js.index dirs (Js.Math_floor (rnd k * 4)) = Some (d, ax) ->
  step dt v rnd k = Some (started (set_waitTimer (waitTimer v - dt) v) d ax, S k).
Proof.
  intros Hm Hw Hi. unfold step. rewrite Hm.
  cbn [set_waitTimer waitTimer]. rewrite (le_true _ _ Hw).
  apply startRoll_run, Hi.
Qed.

Lemma step_idle_wait dt v rnd k :
  isMoving v = false ->
  waitTimer v - dt > 0 ->
  step dt v rnd k = Some (set_waitTimer (waitTimer v - dt) v, k).
Proof.
  intros Hm Hw. unfold step. rewrite Hm.
  cbn [set_waitTimer waitTimer]. rewrite (le_false _ _ Hw). reflexivity.
Qed.

Lemma run_app l1 :
  forall l2 v rnd k,
    run (l1 ++ l2) v rnd k =
    match run l1 v rnd k with
    | Some (v', k') => run l2 v' rnd k'
    | None => None
    end.
Proof.
  induction l1 as [| dt l1 IH]; intros l2 v rnd k; [reflexivity |].
  cbn [app run]. unfold bind.
  destruct (step dt v rnd k) as [[v1 k1] |]; [apply IH | reflexivity].
Qed.

(** A started roll completes on the seventeenth rolling step: sixteen steps
    bring the progress to 0.96, the next one passes 1 and snaps. *)
Lemma roll_completes v d ax pv sp sq mids dtl rnd k :
  isMoving v = true ->
  roll_fields v 0 d ax pv sp sq ->
  List.length mids = 16%nat ->
  past_range (add sp d) = false ->
  exists v',
    run (mids ++ [dtl]) v rnd k = Some (v', S k) /\
    isMoving v' = false /\
    size v' = size v /\
    position (mesh v') = add sp d /\
    quaternion (mesh v') = premultiply sq (setFromAxisAngle ax (PI / 2)) /\
    waitTimer v' = rnd k * SETTINGS.maxWaitTime.
Proof.
  intros Hm Hf Hlen Hr.
  assert (Hspeed : SETTINGS.moveSpeed = 0.06) by reflexivity.
  destruct (run_rolling mids v 0 d ax pv sp sq rnd k Hm Hf)
    as (v16 & Hrun & Hm16 & Hs16 & Hf16).
  { rewrite Hlen, Hspeed. simpl INR. lra. }
  rewrite run_app, Hrun. cbn [run]. unfold bind.
  rewrite (step_moving _ _ Hm16).
  rewrite (animateRoll_end _ _ _ _ _ _ _ rnd k Hf16).
  2:{ rewrite Hlen, Hspeed. simpl INR. lra. }
  cbv zeta. rewrite Hr. unfold ret.
  eexists. split; [reflexivity |].
  cbn [snapped isMoving size mesh position quaternion waitTimer].
  repeat split. exact Hs16.
Qed.

(** C3: an idle voxel whose wait has run out starts a roll: the pivot is the
    current position plus half the cube size along the chosen direction plus
    half the cube size downward, and position and orientation are stored as
    the snapshots.  For a cube of size 1 at (4, 0, 2) and the direction
    (+1, 0, 0) the pivot is (4.5, -0.5, 2), and the roll then completes at
    exactly (5, 0, 2). *)
Theorem startRoll_pivot :
  (forall v dt rnd k,
      isMoving v = false ->
      waitTimer v - dt <= 0 ->
      0 <= rnd k < 1 ->
      exists d ax v',
        In (d, ax) dirs /\
        Js.index dirs (Js.Math_floor (rnd k * 4)) = Some (d, ax) /\
        step dt v rnd k = Some (v', S k) /\
        isMoving v' = true /\
        rollProgress v' = Some 0 /\
        direction v' = Some d /\
        axis v' = Some ax /\
        pivot v' = Some (pivot_of (size v) (position (mesh v)) d) /\
        pivot v' = Some (Vec3 (x (position (mesh v)) + x d * (size v / 2))
                              (y (position (mesh v)) - size v / 2)
                              (z (position (mesh v)) + z d * (size v / 2))) /\
        startPosition v' = Some (position (mesh v)) /\
        startQuaternion v' = Some (quaternion (mesh v))) /\
  (forall v dt mids dtl rnd k,
      isMoving v = false ->
      waitTimer v - dt <= 0 ->
      size v = 1 ->
      position (mesh v) = Vec3 4 0 2 ->
      0 <= rnd k < 1 / 4 ->
      List.length mids = 16%nat ->
      exists v1 v',
        step dt v rnd k = Some (v1, S k) /\
        direction v1 = Some (Vec3 1 0 0) /\
        pivot v1 = Some (Vec3 4.5 (-0.5) 2) /\
        run (mids ++ [dtl]) v1 rnd (S k) = Some (v', S (S k)) /\
        isMoving v' = false /\
        position (mesh v') = Vec3 5 0 2).
Proof.
  split.
  - intros v dt rnd k Hm Hw Hu.
    destruct (choose_move _ Hu) as (d & ax & Hi & Hin).
    exists d, ax. eexists.
    split; [exact Hin |]. split; [exact Hi |].
    split; [apply (step_idle_start _ _ _ _ _ _ Hm Hw Hi) |].
    cbn [started set_waitTimer isMoving rollProgress direction axis pivot
         startPosition startQuaternion size mesh].
    repeat split.
    f_equal. unfold add, multiplyScalar. cbn [x y z].
    each_move Hin; cbn [x y z]; apply Vector3_eq; lra.
  - intros v dt mids dtl rnd k Hm Hw Hs Hp Hu Hlen.
    assert (Hi : Js.index dirs (Js.Math_floor (rnd k * 4))
                 = Some (Vec3 1 0 0, Vec3 0 0 (-1))).
    { rewrite (floor_eq (rnd k * 4) 0) by lra. reflexivity. }
    rewrite (step_idle_start _ _ _ _ _ _ Hm Hw Hi).
    set (v1 := started _ _ _).
    destruct (roll_completes v1 (Vec3 1 0 0) (Vec3 0 0 (-1))
                (Vec3 4.5 (-0.5) 2) (Vec3 4 0 2) (quaternion (mesh v))
                mids dtl rnd (S k)) as (v' & Hrun & Hm' & _ & Hp' & _).
    + reflexivity.
    + unfold roll_fields, v1.
      cbn [started set_waitTimer rollProgress direction axis pivot
           startPosition startQuaternion size mesh].
      rewrite Hp, Hs.
      repeat split.
      f_equal. unfold add, multiplyScalar. cbn [x y z]. apply Vector3_eq; lra.
    + exact Hlen.
    + apply past_range_false; unfold add, SETTINGS.spawnRange; cbn [x z];
        apply Rabs_le; lra.
    + exists v1, v'. split; [reflexivity |].
      split; [reflexivity |].
      split.
      { unfold v1. cbn [started set_waitTimer pivot size mesh].
        rewrite Hp, Hs. f_equal. unfold add, multiplyScalar. cbn [x y z].
        apply Vector3_eq; lra. }
      split; [exact Hrun |]. split; [exact Hm' |].
      rewrite Hp'. unfold add. cbn [x y z]. apply Vector3_eq; lra.
Qed.

(** ** The rest invariant *)

Lemma integral_IZR n : integral (IZR n).
Proof. exists n; reflexivity. Qed.

Lemma integral_plus a b : integral a -> integral b -> integral (a + b).
Proof. intros [n ->] [m ->]. exists (n + m)%Z. rewrite plus_IZR. reflexivity. Qed.

Lemma on_lattice_add p d : on_lattice p -> on_lattice d -> on_lattice (add p d).
Proof.
  intros (H1 & H2 & H3) (D1 & D2 & D3). unfold on_lattice, add. cbn [x y z].
  repeat split; apply integral_plus; assumption.
Qed.

Lemma dirs_on_lattice d ax : In (d, ax) dirs -> on_lattice d.
Proof.
  intros H; each_move H; unfold on_lattice; cbn [x y z];
    repeat split; apply integral_IZR.
Qed.

Lemma dirs_signed_axis d ax : In (d, ax) dirs -> In ax signed_world_axes.
Proof. intros H; each_move H; cbn [signed_world_axes In]; tauto. Qed.

(** The snapped state is at rest when the snapshots were. *)
Lemma snapped_at_rest v p u sp d ax sq :
  In (d, ax) dirs -> on_lattice sp -> cube_orientation sq ->
  at_rest (snapped v p u sp d ax sq).
Proof.
  intros Hin Hsp Hsq. split; cbn [snapped mesh position quaternion].
  - apply on_lattice_add; [exact Hsp | apply (dirs_on_lattice d ax Hin)].
  - apply cube_turn; [exact Hsq | apply (dirs_signed_axis d ax Hin)].
Qed.

(** [reset] leaves an idle voxel at rest. *)
Lemma reset_at_rest v rnd k :
  exists v',
    reset v rnd k = Some (v', S (S (S k))) /\ isMoving v' = false /\ at_rest v'.
Proof.
  rewrite reset_run. eexists. split; [reflexivity |]. split; [reflexivity |].
  split; cbn [mesh position quaternion].
  - unfold on_lattice; cbn [x y z]. repeat split; apply integral_IZR.
  - rewrite setFromEuler_zero. apply cube_identity.
Qed.

Lemma voxel_inv_idle v : isMoving v = false -> voxel_inv v -> at_rest v.
Proof. unfold voxel_inv. intros ->. tauto. Qed.

(** One [step] keeps the invariant, and does not raise. *)
Lemma step_voxel_inv rnd :
  unit_interval rnd ->
  forall v dt k,
    voxel_inv v ->
    exists v' k', step dt v rnd k = Some (v', k') /\ voxel_inv v'.
Proof.
  intros Hrnd v dt k Hinv. unfold voxel_inv in Hinv.
  destruct (isMoving v) eqn:Hm.
  - destruct Hinv as (rp & d & ax & pv & sp & sq & Hf & Hin & Hsp & Hsq).
    rewrite (step_moving _ _ Hm).
    destruct (Rlt_or_le (rp + SETTINGS.moveSpeed) 1) as [Hlt | Hge].
    + rewrite (animateRoll_mid _ _ _ _ _ _ _ rnd k Hf Hlt).
      eexists; eexists; split; [reflexivity |].
      unfold voxel_inv.
      cbn [roll_to set_mesh set_rollProgress isMoving]. rewrite Hm.
      exists (rp + SETTINGS.moveSpeed), d, ax, pv, sp, sq.
      split; [| tauto].
      apply (roll_fields_progress _ rp
               _ _ _ _ _ _ _ Hf).
    + rewrite (animateRoll_end _ _ _ _ _ _ _ rnd k Hf (Rle_ge _ _ Hge)).
      cbv zeta. destruct (past_range (add sp d)).
      * destruct (reset_at_rest
                    (snapped v (rp + SETTINGS.moveSpeed) (rnd k) sp d ax sq)
                    rnd (S k)) as (v' & Hr & Hm' & Hrest).
        exists v', (S (S (S (S k)))). split; [exact Hr |].
        unfold voxel_inv. rewrite Hm'. exact Hrest.
      * eexists; eexists; split; [reflexivity |].
        unfold voxel_inv. cbn [snapped isMoving].
        apply snapped_at_rest; assumption.
  - destruct (Rle_or_lt (waitTimer v - dt) 0) as [Hw | Hw].
    + destruct (choose_move _ (Hrnd k)) as (d & ax & Hi & Hin).
      rewrite (step_idle_start _ _ _ _ _ _ Hm Hw Hi).
      eexists; eexists; split; [reflexivity |].
      unfold voxel_inv. cbn [started isMoving].
      destruct Hinv as [Hp Hq].
      do 6 eexists. split; [| split; [exact Hin | split; [exact Hp | exact Hq]]].
      unfold roll_fields. cbn. repeat split.
    + rewrite (step_idle_wait _ _ _ _ Hm (Rlt_gt _ _ Hw)).
      eexists; eexists; split; [reflexivity |].
      unfold voxel_inv. cbn [set_waitTimer isMoving]. rewrite Hm. exact Hinv.
Qed.

Lemma run_voxel_inv rnd :
  unit_interval rnd ->
  forall deltas v k,
    voxel_inv v ->
    exists v' k', run deltas v rnd k = Some (v', k') /\ voxel_inv v'.
Proof.
  intros Hrnd deltas. induction deltas as [| dt rest IH]; intros v k Hinv.
  - exists v, k. split; [reflexivity | exact Hinv].
  - destruct (step_voxel_inv rnd Hrnd v dt k Hinv) as (v1 & k1 & Hs & Hinv1).
    destruct (IH v1 k1 Hinv1) as (v' & k' & Hr & Hinv').
    exists v', k'. split; [| exact Hinv'].
    cbn [run]. unfold bind. rewrite Hs. exact Hr.
Qed.

(** ** Orientations composed of quarter turns keep the cube axis-aligned *)

Lemma norm2_multiply a b :
  norm2 (multiplyQuaternions a b) = norm2 a * norm2 b.
Proof. unfold norm2, multiplyQuaternions. cbn [qx qy qz qw]. ring. Qed.

Lemma norm2_setFromAxisAngle a angle :
  unit_vector a -> norm2 (setFromAxisAngle a angle) = 1.
Proof.
  unfold unit_vector, dot, norm2, setFromAxisAngle. cbn [qx qy qz qw].
  intros Ha. pose proof (sin2_cos2 (angle / 2)) as H. unfold Rsqr in H.
  set (s := sin (angle / 2)) in *. set (c := cos (angle / 2)) in *.
  replace (x a * s * (x a * s) + y a * s * (y a * s) + z a * s * (z a * s) + c * c)
    with ((x a * x a + y a * y a + z a * z a) * (s * s) + c * c) by ring.
  rewrite Ha. lra.
Qed.

(** Applying a product of unit quaternions applies the factors in turn. *)
Lemma applyQuaternion_multiply v a b :
  norm2 a = 1 -> norm2 b = 1 ->
  applyQuaternion v (multiplyQuaternions a b) =
  applyQuaternion (applyQuaternion v b) a.
Proof.
  destruct a as [a1 a2 a3 a4], b as [b1 b2 b3 b4], v as [v1 v2 v3].
  unfold norm2, applyQuaternion, multiplyQuaternions. cbn [x y z qx qy qz qw].
  intros Ha Hb. apply Vector3_eq; nsatz.
Qed.

Lemma signed_axis_unit a : In a signed_world_axes -> unit_vector a.
Proof.
  cbn [signed_world_axes In].
  intros [<- | [<- | [<- | [<- | [<- | [<- | []]]]]]];
    unfold unit_vector, dot; cbn [x y z]; lra.
Qed.

Ltac pick_axis :=
  first [ left; apply Vector3_eq; lra | right; pick_axis ].

(** A quarter turn about a signed world axis permutes the signed axes. *)
Lemma quarter_turn_permutes a e :
  In a signed_world_axes -> In e signed_world_axes ->
  In (applyAxisAngle e a (PI / 2)) signed_world_axes.
Proof.
  intros Ha He. rewrite (applyAxisAngle_rotate _ _ _ (signed_axis_unit a Ha)).
  unfold rotate_about. rewrite sin_PI2, cos_PI2.
  cbn [signed_world_axes In] in Ha, He.
  destruct Ha as [<- | [<- | [<- | [<- | [<- | [<- | []]]]]]];
    destruct He as [<- | [<- | [<- | [<- | [<- | [<- | []]]]]]];
    unfold add, multiplyScalar, cross, dot; cbn [x y z signed_world_axes In];
    pick_axis.
Qed.

Lemma cube_orientation_aligned q : cube_orientation q -> axis_aligned q.
Proof.
  induction 1 as [| q a Hq [IHn IHp] Ha].
  - split.
    + unfold norm2, identity. cbn [qx qy qz qw]. lra.
    + intros e He.
      replace (applyQuaternion e identity) with e; [exact He |].
      destruct e as [e1 e2 e3].
      unfold applyQuaternion, identity. cbn [x y z qx qy qz qw].
      apply Vector3_eq; ring.
  - pose proof (norm2_setFromAxisAngle a (PI / 2) (signed_axis_unit a Ha)) as Hn.
    split.
    + rewrite norm2_multiply, Hn, IHn. lra.
    + intros e He. rewrite (applyQuaternion_multiply _ _ _ Hn IHn).
      apply (quarter_turn_permutes a _ Ha). apply IHp, He.
Qed.

(** C4, as amended: a voxel at rest sits on the integer lattice and its
    orientation is a composition of 90 degree turns about world axes, which
    keeps the cube aligned with the axes.  [reset] and the constructor
    establish this, every [step] keeps the invariant of the state machine
    without raising, and so every idle state of a run satisfies it; a
    completed roll in particular takes snapshots at rest to a state at
    rest. *)
Theorem at_rest_invariant (rnd : Rand) :
  unit_interval rnd ->
  (forall v k, exists v',
      reset v rnd k = Some (v', S (S (S k))) /\
      isMoving v' = false /\ at_rest v') /\
  (forall k, exists v',
      new_RollingVoxel rnd k = Some (v', S (S (S (S k)))) /\
      isMoving v' = false /\ at_rest v') /\
  (forall v rp d ax sp sq u,
      In (d, ax) dirs -> on_lattice sp -> cube_orientation sq ->
      at_rest (snapped v rp u sp d ax sq)) /\
  (forall deltas v k,
      voxel_inv v ->
      exists v' k',
        run deltas v rnd k = Some (v', k') /\
        voxel_inv v' /\
        (isMoving v' = false ->
         on_lattice (position (mesh v')) /\
         cube_orientation (quaternion (mesh v')) /\
         axis_aligned (quaternion (mesh v')))).
Proof.
  intros Hrnd. split; [| split; [| split]].
  - intros v k. apply reset_at_rest.
  - intros k. unfold new_RollingVoxel, bind, Math_random.
    apply reset_at_rest.
  - intros v rp d ax sp sq u. apply snapped_at_rest.
  - intros deltas v k Hinv.
    destruct (run_voxel_inv rnd Hrnd deltas v k Hinv) as (v' & k' & Hr & Hinv').
    exists v', k'. split; [exact Hr |]. split; [exact Hinv' |].
    intros Hm. destruct (voxel_inv_idle _ Hm Hinv') as [Hp Hq].
    split; [exact Hp |]. split; [exact Hq |].
    apply cube_orientation_aligned, Hq.
Qed.

(** ** Two rolls about different axes *)

Lemma half_sqrt2 : 1 / sqrt 2 * (1 / sqrt 2) = 1 / 2.
Proof.
  assert (H : sqrt 2 * sqrt 2 = 2) by (apply sqrt_def; lra).
  assert (Hn : sqrt 2 <> 0) by (intros E; rewrite E in H; lra).
  field_simplify_eq; [lra | exact Hn].
Qed.

(** The quaternion of the quarter turn about [a]. *)
Lemma quarter_turn_components a :
  setFromAxisAngle a (PI / 2) =
  Quat (x a * (1 / sqrt 2)) (y a * (1 / sqrt 2)) (z a * (1 / sqrt 2)) (1 / sqrt 2).
Proof.
  unfold setFromAxisAngle. replace (PI / 2 / 2) with (PI / 4) by lra.
  rewrite sin_PI4, cos_PI4. reflexivity.
Qed.

(** No multiple of a quarter turn about a single world axis has two
    non-zero vector components. *)
Lemma quarter_turns_two_zero q :
  quarter_turns q ->
  (qx q = 0 /\ qy q = 0) \/ (qx q = 0 /\ qz q = 0) \/ (qy q = 0 /\ qz q = 0).
Proof.
  intros (a & n & Ha & ->). cbn [world_axes In] in Ha.
  destruct Ha as [<- | [<- | [<- | []]]];
    unfold setFromAxisAngle; cbn [x y z qx qy qz];
    [ right; right | right; left | left ]; split; ring.
Qed.

(** C4, the claim as worded fails: from a freshly constructed voxel, a roll
    Forward (about X) leaves a quarter turn about X, and the following roll
    Right (about Z) leaves an idle voxel on the lattice whose orientation is
    (1/2, -1/2, -1/2, 1/2), a third of a turn about a cube diagonal and not a
    multiple of 90 degrees about any world axis. *)
Lemma single_turn_not_preserved :
  exists v0 v1 v2,
    new_RollingVoxel two_rolls_rnd 0%nat = Some (v0, 4%nat) /\
    run (repeat 16 18%nat) v0 two_rolls_rnd 4%nat = Some (v1, 6%nat) /\
    isMoving v1 = false /\
    at_rest_single_turn v1 /\
    run (repeat 16 18%nat) v1 two_rolls_rnd 6%nat = Some (v2, 8%nat) /\
    isMoving v2 = false /\
    position (mesh v2) = Vec3 1 0 1 /\
    quaternion (mesh v2) = Quat (1 / 2) (- (1 / 2)) (- (1 / 2)) (1 / 2) /\
    ~ quarter_turns (quaternion (mesh v2)) /\
    ~ at_rest_single_turn v2.
Proof.
  (* the constructor *)
  assert (Hf0 : Js.Math_floor ((0.5 - 0.5) * SETTINGS.spawnRange) = 0%Z)
    by (apply floor_eq; unfold SETTINGS.spawnRange; lra).
  destruct (reset_at_rest
              {| size := 1;
                 mesh := {| color := Js.index SETTINGS.colors
                                       (Js.Math_floor (0 * INR 3));
                            position := Vec3 0 0 0; quaternion := identity |};
                 isMoving := false; waitTimer := 0;
                 rollProgress := None; direction := None; axis := None;
                 pivot := None; startPosition := None;
                 startQuaternion := None |} two_rolls_rnd 1%nat)
    as (v0 & Hv0 & Hm0 & _).
  pose proof Hv0 as Hv0'. rewrite reset_run in Hv0'.
  injection Hv0' as Hv0'.
  assert (Hp0 : position (mesh v0) = Vec3 0 0 0).
  { rewrite <- Hv0'. cbn [mesh position two_rolls_rnd nth].
    rewrite Hf0. reflexivity. }
  assert (Hq0 : quaternion (mesh v0) = identity).
  { rewrite <- Hv0'. cbn [mesh quaternion]. apply setFromEuler_zero. }
  assert (Hw0 : waitTimer v0 = 0 * SETTINGS.maxWaitTime).
  { rewrite <- Hv0'. reflexivity. }
  (* the first roll: Forward, about X *)
  assert (Hi1 : Js.index dirs (Js.Math_floor (two_rolls_rnd 4%nat * 4))
                = Some (Vec3 0 0 1, Vec3 1 0 0)).
  { cbn [two_rolls_rnd nth]. rewrite (floor_eq (0.5 * 4) 2) by lra. reflexivity. }
  assert (Hs1 : step 16 v0 two_rolls_rnd 4%nat
                = Some (started (set_waitTimer (waitTimer v0 - 16) v0)
                          (Vec3 0 0 1) (Vec3 1 0 0), 5%nat)).
  { apply step_idle_start; [exact Hm0 | | exact Hi1].
    rewrite Hw0. unfold SETTINGS.maxWaitTime. lra. }
  destruct (roll_completes
              (started (set_waitTimer (waitTimer v0 - 16) v0) (Vec3 0 0 1) (Vec3 1 0 0))
              (Vec3 0 0 1) (Vec3 1 0 0)
              (pivot_of (size v0) (position (mesh v0)) (Vec3 0 0 1))
              (position (mesh v0)) (quaternion (mesh v0))
              (repeat 16 16%nat) 16 two_rolls_rnd 5%nat)
    as (v1 & Hr1 & Hm1 & _ & Hp1 & Hq1 & Hw1).
  { reflexivity. }
  { unfold roll_fields. cbn. repeat split. }
  { reflexivity. }
  { rewrite Hp0. apply past_range_false; unfold add, SETTINGS.spawnRange;
      cbn [x z]; apply Rabs_le; lra. }
  rewrite Hp0 in Hp1. rewrite Hq0 in Hq1.
  assert (Hp1' : position (mesh v1) = Vec3 0 0 1).
  { rewrite Hp1. unfold add; cbn [x y z]. apply Vector3_eq; lra. }
  assert (Hq1' : quaternion (mesh v1) = setFromAxisAngle (Vec3 1 0 0) (PI / 2)).
  { rewrite Hq1. unfold premultiply, multiplyQuaternions, identity,
      setFromAxisAngle. cbn [x y z qx qy qz qw]. apply Quaternion_eq; ring. }
  (* the second roll: Right, about Z *)
  assert (Hi2 : Js.index dirs (Js.Math_floor (two_rolls_rnd 6%nat * 4))
                = Some (Vec3 1 0 0, Vec3 0 0 (-1))).
  { cbn [two_rolls_rnd nth]. rewrite (floor_eq (0 * 4) 0) by lra. reflexivity. }
  assert (Hs2 : step 16 v1 two_rolls_rnd 6%nat
                = Some (started (set_waitTimer (waitTimer v1 - 16) v1)
                          (Vec3 1 0 0) (Vec3 0 0 (-1)), 7%nat)).
  { apply step_idle_start; [exact Hm1 | | exact Hi2].
    rewrite Hw1. cbn [two_rolls_rnd nth]. unfold SETTINGS.maxWaitTime. lra. }
  destruct (roll_completes
              (started (set_waitTimer (waitTimer v1 - 16) v1) (Vec3 1 0 0) (Vec3 0 0 (-1)))
              (Vec3 1 0 0) (Vec3 0 0 (-1))
              (pivot_of (size v1) (position (mesh v1)) (Vec3 1 0 0))
              (position (mesh v1)) (quaternion (mesh v1))
              (repeat 16 16%nat) 16 two_rolls_rnd 7%nat)
    as (v2 & Hr2 & Hm2 & _ & Hp2 & Hq2 & _).
  { reflexivity. }
  { unfold roll_fields. cbn. repeat split. }
  { reflexivity. }
  { rewrite Hp1'. apply past_range_false; unfold add, SETTINGS.spawnRange;
      cbn [x z]; apply Rabs_le; lra. }
  assert (Hp2' : position (mesh v2) = Vec3 1 0 1).
  { rewrite Hp2, Hp1'. unfold add; cbn [x y z]. apply Vector3_eq; lra. }
  assert (Hq2' : quaternion (mesh v2)
                 = Quat (1 / 2) (- (1 / 2)) (- (1 / 2)) (1 / 2)).
  { rewrite Hq2, Hq1'. unfold premultiply. rewrite !quarter_turn_components.
    unfold multiplyQuaternions. cbn [x y z qx qy qz qw].
    pose proof half_sqrt2 as Hh. set (s := 1 / sqrt 2) in *.
    apply Quaternion_eq; nra. }
  assert (Hn2 : ~ quarter_turns (quaternion (mesh v2))).
  { intros H. apply quarter_turns_two_zero in H. rewrite Hq2' in H.
    cbn [qx qy qz] in H. lra. }
  exists v0, v1, v2.
  split.
  { unfold new_RollingVoxel, bind, Math_random.
    cbn [two_rolls_rnd nth SETTINGS.colors List.length]. exact Hv0. }
  split.
  { change (repeat 16 18%nat) with ([16] ++ (repeat 16 16 ++ [16])).
    rewrite run_app. cbn [run]. unfold bind at 1. rewrite Hs1.
    unfold ret. exact Hr1. }
  split; [exact Hm1 |].
  split.
  { split.
    - rewrite Hp1'. unfold on_lattice; cbn [x y z]. repeat split; apply integral_IZR.
    - exists (Vec3 1 0 0), 1%Z. split; [cbn; tauto |].
      rewrite Hq1'. f_equal. lra. }
  split.
  { change (repeat 16 18%nat) with ([16] ++ (repeat 16 16 ++ [16])).
    rewrite run_app. cbn [run]. unfold bind at 1. rewrite Hs2.
    unfold ret. exact Hr2. }
  split; [exact Hm2 |].
  split; [exact Hp2' |].
  split; [exact Hq2' |].
  split; [exact Hn2 |].
  intros [_ H]. exact (Hn2 H).
Qed.

(** ** The animation loop and the elapsed time *)

Lemma forEach_pointwise f l :
  forall rnd k l' k',
    forEach f l rnd k = Some (l', k') ->
    Forall2 (fun v v' => exists k1 k2, f v rnd k1 = Some (v', k2)) l l'.
Proof.
  induction l as [| v rest IH]; intros rnd k l' k' H.
  - injection H as <- <-. constructor.
  - cbn [forEach] in H. unfold bind in H.
    destruct (f v rnd k) as [[v1 k1] |] eqn:Hv; [| discriminate].
    destruct (forEach f rest rnd k1) as [[rest1 k2] |] eqn:Hr; [| discriminate].
    injection H as <- <-. constructor.
    + exists k, k1. exact Hv.
    + apply (IH rnd k1 rest1 k2 Hr).
Qed.

(** An idle voxel's timer goes down by the elapsed time it is handed. *)
Lemma step_idle_timer dt v rnd k v' k' :
  isMoving v = false ->
  step dt v rnd k = Some (v', k') ->
  waitTimer v' = waitTimer v - dt.
Proof.
  intros Hm. unfold step. rewrite Hm. cbn [set_waitTimer waitTimer].
  destruct (Js.le (waitTimer v - dt) 0).
  - unfold startRoll, bind, Math_random.
    destruct (Js.index dirs _) as [[vec a] |]; [| discriminate].
    intros H; injection H as <- <-. reflexivity.
  - intros H; injection H as <- <-. reflexivity.
Qed.

(** C7, as amended: [animate] hands every voxel the difference between the
    timestamp and the previous one as it is, with no clamping: each voxel of
    the new state is the [step] of the old one for that difference, and the
    wait timer of every idle voxel goes down by exactly that difference,
    whatever its sign or size. *)
Theorem animate_passes_raw_delta (time : R) (w w' : World) (rnd : Rand)
        (k k' : nat) :
  animate time w rnd k = Some (w', k') ->
  lastTime w' = time /\
  Forall2 (fun v v' =>
             (exists k1 k2, step (time - lastTime w) v rnd k1 = Some (v', k2)) /\
             (isMoving v = false ->
              waitTimer v' = waitTimer v - (time - lastTime w)))
          (voxels w) (voxels w').
Proof.
  unfold animate, bind. intros H.
  destruct (forEach (step (time - lastTime w)) (voxels w) rnd k)
    as [[vs k1] |] eqn:Hf; [| discriminate].
  injection H as <- <-. cbn [lastTime voxels]. split; [reflexivity |].
  apply forEach_pointwise in Hf.
  induction Hf as [| v v' l l' (k2 & k3 & Hs) _ IH]; constructor.
  - split; [exists k2, k3; exact Hs |].
    intros Hm. apply (step_idle_timer _ _ _ _ _ _ Hm Hs).
  - exact IH.
Qed.

(** A frame whose timestamp is 1000 ms behind the previous one. *)
Lemma animate_backwards :
  animate 0 {| lastTime := 1000; voxels := [idle_voxel 500] |} (fun _ => 0) 0%nat
    = Some ({| lastTime := 0; voxels := [idle_voxel (500 - (0 - 1000))] |}, 0%nat).
Proof.
  unfold animate, bind. cbn [lastTime voxels forEach]. unfold bind.
  rewrite step_idle_wait; [reflexivity | reflexivity |].
  cbn [idle_voxel waitTimer]. lra.
Qed.

(** C7, the claim as worded fails: a timestamp 1000 ms behind the previous
    one reaches the countdown as a delta of -1000 and raises the timer from
    500 to 1500; a first frame at timestamp 10^9 reaches it as a delta of
    10^9 and ends the wait of 3999 ms at once. *)
Lemma animate_does_not_clamp :
  animate 0 {| lastTime := 1000; voxels := [idle_voxel 500] |} (fun _ => 0) 0%nat
    = Some ({| lastTime := 0; voxels := [idle_voxel (500 - (0 - 1000))] |}, 0%nat) /\
  500 - (0 - 1000) = 1500 /\
  animate 1000000000 {| lastTime := 0; voxels := [idle_voxel 3999] |}
          (fun _ => 0) 0%nat
    = Some ({| lastTime := 1000000000;
               voxels := [started (idle_voxel (3999 - (1000000000 - 0)))
                                  (Vec3 1 0 0) (Vec3 0 0 (-1))] |}, 1%nat) /\
  3999 - (1000000000 - 0) = -999996001.
Proof.
  split; [exact animate_backwards | split; [lra | split; [| lra]]].
  unfold animate, bind. cbn [lastTime voxels forEach]. unfold bind.
  rewrite (step_idle_start _ _ (Vec3 1 0 0) (Vec3 0 0 (-1))).
  - reflexivity.
  - reflexivity.
  - cbn [idle_voxel waitTimer]. lra.
  - rewrite (floor_eq (0 * 4) 0) by lra. reflexivity.
Qed.

(** ** Determinism in the random source *)

Lemma agree_from_le k k' r1 r2 :
  (k <= k')%nat -> agree_from k r1 r2 -> agree_from k' r1 r2.
Proof. intros Hle H i Hi. apply H. lia. Qed.

Lemma deterministic_ret {A : Type} (a : A) : deterministic (ret a).
Proof.
  intros r1 r2 k _. split; [reflexivity |].
  intros a' k' H; injection H as _ <-. lia.
Qed.

Lemma deterministic_throw {A : Type} : deterministic (@throw A).
Proof. intros r1 r2 k _. split; [reflexivity | discriminate]. Qed.

Lemma deterministic_random : deterministic Math_random.
Proof.
  intros r1 r2 k H. unfold Math_random. split.
  - rewrite (H k) by lia. reflexivity.
  - intros a k' E; injection E as _ <-. lia.
Qed.

Lemma deterministic_bind {A B : Type} (m : M A) (f : A -> M B) :
  deterministic m -> (forall a, deterministic (f a)) -> deterministic (bind m f).
Proof.
  intros Hm Hf r1 r2 k H. destruct (Hm r1 r2 k H) as [E Hk].
  unfold bind. rewrite <- E.
  destruct (m r1 k) as [[a k1] |]; [| split; [reflexivity | discriminate]].
  pose proof (Hk a k1 eq_refl) as Hle.
  destruct (Hf a r1 r2 k1 (agree_from_le _ _ _ _ Hle H)) as [E' Hk'].
  split; [exact E' |].
  intros b k' Hb. specialize (Hk' b k' Hb). lia.
Qed.

Ltac deterministic_steps :=
  repeat first
    [ apply deterministic_ret
    | apply deterministic_throw
    | apply deterministic_random
    | apply deterministic_bind; [| intros ?] ].

Lemma deterministic_reset v : deterministic (reset v).
Proof. unfold reset. deterministic_steps. Qed.

Lemma deterministic_startRoll v : deterministic (startRoll v).
Proof.
  unfold startRoll. deterministic_steps.
  destruct (Js.index dirs _) as [[vec ax] |]; deterministic_steps.
Qed.

Lemma deterministic_animateRoll v : deterministic (animateRoll v).
Proof.
  unfold animateRoll.
  destruct (rollProgress v), (direction v), (axis v), (pivot v),
    (startPosition v), (startQuaternion v); try apply deterministic_throw.
  cbv zeta. destruct (Js.ge _ 1); [| apply deterministic_ret].
  apply deterministic_bind.
  - unfold snap. deterministic_steps.
  - intros s. destruct (past_range _);
      [apply deterministic_reset | apply deterministic_ret].
Qed.

Lemma deterministic_step dt v : deterministic (step dt v).
Proof.
  unfold step. destruct (isMoving v); [apply deterministic_animateRoll |].
  cbv zeta. destruct (Js.le _ 0);
    [apply deterministic_startRoll | apply deterministic_ret].
Qed.

Lemma deterministic_steps_run deltas : forall v, deterministic (steps deltas v).
Proof.
  induction deltas as [| dt rest IH]; intros v; cbn [steps].
  - apply deterministic_ret.
  - apply deterministic_bind; [apply deterministic_step | intros v'].
    apply deterministic_bind; [apply IH | intros vs]. apply deterministic_ret.
Qed.

Lemma deterministic_forEach f l :
  (forall v, deterministic (f v)) -> deterministic (forEach f l).
Proof.
  intros Hf. induction l as [| v rest IH]; cbn [forEach].
  - apply deterministic_ret.
  - apply deterministic_bind; [apply Hf | intros v'].
    apply deterministic_bind; [apply IH | intros vs]. apply deterministic_ret.
Qed.

Lemma deterministic_animate time w : deterministic (animate time w).
Proof.
  unfold animate. cbv zeta.
  apply deterministic_bind; [| intros vs; apply deterministic_ret].
  apply deterministic_forEach. intros v. apply deterministic_step.
Qed.

Lemma deterministic_frames times : forall w, deterministic (frames times w).
Proof.
  induction times as [| t rest IH]; intros w; cbn [frames].
  - apply deterministic_ret.
  - apply deterministic_bind; [apply deterministic_animate | intros w'].
    apply deterministic_bind; [apply IH | intros ws]. apply deterministic_ret.
Qed.

Lemma deterministic_spawn n : deterministic (spawn n).
Proof.
  induction n as [| n IH]; cbn [spawn].
  - apply deterministic_ret.
  - apply deterministic_bind.
    + unfold new_RollingVoxel.
      apply deterministic_bind; [apply deterministic_random | intros u].
      apply deterministic_reset.
    + intros v. apply deterministic_bind; [apply IH | intros vs].
      apply deterministic_ret.
Qed.

(** C8: the update is a function of its inputs.  Two random sources that
    yield the same values from the cursor on, the same initial voxel and the
    same elapsed times give the same sequence of states, hence the same
    sequence of positions and orientations; so do whole frames of the loop
    and the construction of the field. *)
Theorem replay_deterministic (r1 r2 : Rand) (k : nat) :
  agree_from k r1 r2 ->
  (forall deltas v,
      steps deltas v r1 k = steps deltas v r2 k /\
      option_map (fun r => map transform (fst r)) (steps deltas v r1 k) =
      option_map (fun r => map transform (fst r)) (steps deltas v r2 k)) /\
  (forall times w, frames times w r1 k = frames times w r2 k) /\
  init r1 k = init r2 k.
Proof.
  intros H. split; [| split].
  - intros deltas v.
    destruct (deterministic_steps_run deltas v r1 r2 k H) as [E _].
    split; [exact E | rewrite E; reflexivity].
  - intros times w. apply (deterministic_frames times w r1 r2 k H).
  - unfold init.
    refine (proj1 (deterministic_bind _ _ (deterministic_spawn _) _ r1 r2 k H)).
    intros vs. apply deterministic_ret.
Qed.

(** ** The trigger watcher *)

Lemma callback_app pre post body :
  Watcher.callback (pre ++ post) body =
  Watcher.callback post (Watcher.callback pre body).
Proof. unfold Watcher.callback. apply fold_left_app. Qed.

(** Entries that do not intersect leave the background as it is. *)
Lemma callback_not_intersecting post :
  forall body,
    forallb (fun e => negb (Watcher.isIntersecting e)) post = true ->
    Watcher.callback post body = body.
Proof.
  induction post as [| e post IH]; intros body H; [reflexivity |].
  cbn [forallb] in H. apply andb_prop in H. destruct H as [He Hp].
  unfold Watcher.callback in *. cbn [fold_left]. unfold Watcher.on_entry at 2.
  destruct (Watcher.isIntersecting e); [discriminate |].
  apply IH, Hp.
Qed.

(** C9: an entry of a region that crosses the threshold upward is delivered
    as intersecting, and when the callback processes it the background
    colour becomes the region's [data-color]; it is the final colour of the
    batch unless a later entry of the batch intersects as well.  A region
    with colour [c] going from 30% to 45% visible under the threshold 0.4
    leaves the background at exactly [c]. *)
Theorem upward_crossing_sets_color :
  (forall pre e post body c,
      Watcher.isIntersecting e = true ->
      Watcher.getAttribute (Watcher.target e) "data-color" = Some c ->
      Watcher.backgroundColor (Watcher.callback (pre ++ [e]) body) = c /\
      (forallb (fun e' => negb (Watcher.isIntersecting e')) post = true ->
       Watcher.backgroundColor (Watcher.callback (pre ++ e :: post) body) = c)) /\
  (forall el previous current,
      0 <= previous < Watcher.threshold ->
      Watcher.threshold <= current ->
      Watcher.notify Watcher.threshold el previous current =
      Some {| Watcher.isIntersecting := true;
              Watcher.intersectionRatio := current;
              Watcher.target := el |}) /\
  (forall el c body,
      Watcher.getAttribute el "data-color" = Some c ->
      exists e,
        Watcher.notify Watcher.threshold el 0.30 0.45 = Some e /\
        Watcher.backgroundColor (Watcher.callback [e] body) = c).
Proof.
  assert (Hone : forall pre e body c,
             Watcher.isIntersecting e = true ->
             Watcher.getAttribute (Watcher.target e) "data-color" = Some c ->
             Watcher.backgroundColor (Watcher.callback (pre ++ [e]) body) = c).
  { intros pre e body c Hi Hc. rewrite callback_app.
    unfold Watcher.callback at 1. cbn [fold_left]. unfold Watcher.on_entry.
    rewrite Hi. cbv zeta. rewrite Hc. reflexivity. }
  assert (Hnotify : forall el previous current,
             0 <= previous < Watcher.threshold ->
             Watcher.threshold <= current ->
             Watcher.notify Watcher.threshold el previous current =
             Some {| Watcher.isIntersecting := true;
                     Watcher.intersectionRatio := current;
                     Watcher.target := el |}).
  { intros el previous current Hp Hc. unfold Watcher.threshold in *.
    unfold Watcher.notify, Watcher.thresholdIndex, Watcher.intersects.
    rewrite (ge_false previous 0.4) by lra.
    rewrite (ge_true current 0.4) by lra.
    rewrite (gt_true current 0) by lra. reflexivity. }
  split; [| split].
  - intros pre e post body c Hi Hc. split; [apply Hone; assumption |].
    intros Hpost.
    change (pre ++ e :: post) with (pre ++ [e] ++ post).
    rewrite app_assoc, callback_app, (callback_not_intersecting post _ Hpost).
    apply Hone; assumption.
  - exact Hnotify.
  - intros el c body Hc. eexists. split.
    + apply Hnotify; unfold Watcher.threshold; lra.
    + apply (Hone [] _ body c); [reflexivity | exact Hc].
Qed.

(* ================================================================== *)
(** * The theorems at concrete inputs *)

Lemma rolling_voxel_fields sp rp :
  roll_fields (rolling_voxel sp rp) rp (Vec3 1 0 0) (Vec3 0 0 (-1))
              (pivot_of 1 sp (Vec3 1 0 0)) sp identity.
Proof. unfold roll_fields. cbn. repeat split. Defined.

Lemma quarter_source : unit_interval (fun _ => 0.25).
Proof. intros i. lra. Defined.

Lemma right_move_in_dirs : In (Vec3 1 0 0, Vec3 0 0 (-1)) dirs.
Proof. cbn [dirs In]. left. reflexivity. Defined.

(** The last step of a roll from the origin snaps to (1, 0, 0). *)
Lemma roll_completes_snap_witness :
  0.96 + SETTINGS.moveSpeed >= 1 /\
  exists s,
    animateRoll (rolling_voxel (Vec3 0 0 0) 0.96) (fun _ => 0.25) 0%nat
      = (if past_range (position (mesh s)) then reset s (fun _ => 0.25) 1%nat
         else Some (s, 1%nat)) /\
    position (mesh s) = add (Vec3 0 0 0) (Vec3 1 0 0) /\
    one_cell_from (Vec3 0 0 0) (position (mesh s)).
Proof.
  assert (Hp : 0.96 + SETTINGS.moveSpeed >= 1) by (unfold SETTINGS.moveSpeed; lra).
  split; [exact Hp |].
  destruct (roll_completes_snap (rolling_voxel (Vec3 0 0 0) 0.96) 0.96
              (Vec3 1 0 0) (Vec3 0 0 (-1)) (pivot_of 1 (Vec3 0 0 0) (Vec3 1 0 0))
              (Vec3 0 0 0) identity (fun _ => 0.25) 0%nat
              (rolling_voxel_fields _ _) right_move_in_dirs Hp)
    as (s & _ & Ha & _ & Hpos & Hone & _).
  exists s. split; [exact Ha |]. split; [exact Hpos | exact Hone].
Defined.

(** The first rolling step of a roll from the origin. *)
Lemma mid_roll_recomputed_witness :
  unit_vector (Vec3 0 0 (-1)) /\
  0 + SETTINGS.moveSpeed < 1 /\
  exists v',
    step 16 (rolling_voxel (Vec3 0 0 0) 0) (fun _ => 0.25) 0%nat = Some (v', 0%nat) /\
    position (mesh v') =
      add (rotate_about (Vec3 0 0 (-1)) (PI / 2 * (0 + SETTINGS.moveSpeed))
             (sub (Vec3 0 0 0) (pivot_of 1 (Vec3 0 0 0) (Vec3 1 0 0))))
          (pivot_of 1 (Vec3 0 0 0) (Vec3 1 0 0)).
Proof.
  assert (Hu : unit_vector (Vec3 0 0 (-1)))
    by (unfold unit_vector, dot; cbn [x y z]; lra).
  assert (Hlt : 0 + SETTINGS.moveSpeed < 1) by (unfold SETTINGS.moveSpeed; lra).
  split; [exact Hu |]. split; [exact Hlt |].
  destruct (mid_roll_recomputed (rolling_voxel (Vec3 0 0 0) 0) 0
              (Vec3 1 0 0) (Vec3 0 0 (-1)) (pivot_of 1 (Vec3 0 0 0) (Vec3 1 0 0))
              (Vec3 0 0 0) identity 16 (fun _ => 0.25) 0%nat
              eq_refl (rolling_voxel_fields _ _) Hu (Rle_refl 0) Hlt)
    as (v' & Hs & _ & _ & _ & Hpos & _).
  exists v'. split; [exact Hs | exact Hpos].
Defined.

(** The scenario of the pivot, with sixteen rolling steps of 16 ms and the
    closing one. *)
Lemma startRoll_pivot_witness :
  exists v1 v',
    step 16 (set_mesh (set_position (Vec3 4 0 2) (mesh (idle_voxel 0))) (idle_voxel 0))
         (fun _ => 0) 0%nat = Some (v1, 1%nat) /\
    direction v1 = Some (Vec3 1 0 0) /\
    pivot v1 = Some (Vec3 4.5 (-0.5) 2) /\
    run (repeat 16 16%nat ++ [16]) v1 (fun _ => 0) 1%nat = Some (v', 2%nat) /\
    isMoving v' = false /\
    position (mesh v') = Vec3 5 0 2.
Proof.
  apply (proj2 startRoll_pivot
           (set_mesh (set_position (Vec3 4 0 2) (mesh (idle_voxel 0))) (idle_voxel 0))
           16 (repeat 16 16%nat) 16 (fun _ => 0) 0%nat).
  - reflexivity.
  - cbn [set_mesh idle_voxel waitTimer]. lra.
  - reflexivity.
  - reflexivity.
  - lra.
  - reflexivity.
Defined.

(** A roll that ends at (91, 0, 0) is recycled; one that ends at (1, 0, 0)
    is kept. *)
Lemma despawn_recycles_witness :
  (exists v',
      step 16 (rolling_voxel (Vec3 90 0 0) 0.96) (fun _ => 0.25) 0%nat
        = Some (v', 4%nat) /\
      Rabs (x (position (mesh v'))) <= SETTINGS.spawnRange /\
      Rabs (z (position (mesh v'))) <= SETTINGS.spawnRange /\
      quaternion (mesh v') = identity) /\
  (exists v',
      step 16 (rolling_voxel (Vec3 0 0 0) 0.96) (fun _ => 0.25) 0%nat
        = Some (v', 1%nat) /\
      position (mesh v') = add (Vec3 0 0 0) (Vec3 1 0 0)).
Proof.
  assert (Hp : 0.96 + SETTINGS.moveSpeed >= 1) by (unfold SETTINGS.moveSpeed; lra).
  split.
  - destruct (proj1 (despawn_recycles (rolling_voxel (Vec3 90 0 0) 0.96) 0.96
                       (Vec3 1 0 0) (Vec3 0 0 (-1))
                       (pivot_of 1 (Vec3 90 0 0) (Vec3 1 0 0))
                       (Vec3 90 0 0) identity 16 (fun _ => 0.25) 0%nat
                       eq_refl (rolling_voxel_fields _ _) Hp quarter_source))
      as (v' & Hs & _ & Hx & Hz & _ & _ & Hq & _).
    + left. unfold add, SETTINGS.spawnRange. cbn [x].
      rewrite Rabs_right; lra.
    + exists v'. repeat split; assumption.
  - destruct (proj2 (despawn_recycles (rolling_voxel (Vec3 0 0 0) 0.96) 0.96
                       (Vec3 1 0 0) (Vec3 0 0 (-1))
                       (pivot_of 1 (Vec3 0 0 0) (Vec3 1 0 0))
                       (Vec3 0 0 0) identity 16 (fun _ => 0.25) 0%nat
                       eq_refl (rolling_voxel_fields _ _) Hp quarter_source))
      as (v' & Hs & Hpos & _).
    + unfold add, SETTINGS.spawnRange. cbn [x]. rewrite Rabs_right; lra.
    + unfold add, SETTINGS.spawnRange. cbn [z]. rewrite Rabs_right; lra.
    + exists v'. split; assumption.
Defined.

(** A rolling voxel steps the same way after 1 ms and after 5000 ms. *)
Lemma rolling_ignores_elapsed_witness :
  step 1 (rolling_voxel (Vec3 0 0 0) 0) (fun _ => 0.25) 0%nat =
  step 5000 (rolling_voxel (Vec3 0 0 0) 0) (fun _ => 0.25) 0%nat /\
  exists v',
    run [1; 5000; 16] (rolling_voxel (Vec3 0 0 0) 0) (fun _ => 0.25) 0%nat
      = Some (v', 0%nat) /\
    rollProgress v' = Some (0 + INR 3 * SETTINGS.moveSpeed).
Proof.
  destruct (rolling_ignores_elapsed (rolling_voxel (Vec3 0 0 0) 0) 0
              (Vec3 1 0 0) (Vec3 0 0 (-1)) (pivot_of 1 (Vec3 0 0 0) (Vec3 1 0 0))
              (Vec3 0 0 0) identity (fun _ => 0.25) 0%nat
              eq_refl (rolling_voxel_fields _ _))
    as (Hsame & _ & Hramp & _).
  split; [apply Hsame |].
  apply (Hramp [1; 5000; 16]).
  unfold SETTINGS.moveSpeed. simpl INR. lra.
Defined.

(** A reset and a run of frames under a source that always yields 0.25. *)
Lemma at_rest_invariant_witness :
  (exists v',
      reset (idle_voxel 0) (fun _ => 0.25) 0%nat = Some (v', 3%nat) /\
      isMoving v' = false /\ at_rest v') /\
  (exists v' k',
      run (repeat 16 40%nat) (idle_voxel 0) (fun _ => 0.25) 0%nat = Some (v', k') /\
      voxel_inv v').
Proof.
  pose proof (at_rest_invariant (fun _ => 0.25) quarter_source)
    as (Hreset & _ & _ & Hrun).
  split; [apply Hreset |].
  destruct (Hrun (repeat 16 40%nat) (idle_voxel 0) 0%nat)
    as (v' & k' & Hr & Hinv & _).
  - unfold voxel_inv, at_rest, on_lattice. cbn [idle_voxel isMoving mesh position quaternion x y z].
    split; [repeat split; apply integral_IZR | apply cube_identity].
  - exists v', k'. split; assumption.
Defined.

(** The frame that runs 1000 ms backwards raises the timer by 1000. *)
Lemma animate_passes_raw_delta_witness :
  Forall2 (fun v v' =>
             (exists k1 k2, step (0 - 1000) v (fun _ => 0) k1 = Some (v', k2)) /\
             (isMoving v = false -> waitTimer v' = waitTimer v - (0 - 1000)))
          [idle_voxel 500] [idle_voxel (500 - (0 - 1000))].
Proof.
  apply (proj2 (animate_passes_raw_delta 0
                  {| lastTime := 1000; voxels := [idle_voxel 500] |}
                  {| lastTime := 0; voxels := [idle_voxel (500 - (0 - 1000))] |}
                  (fun _ => 0) 0%nat 0%nat animate_backwards)).
Defined.

Lemma sources_agree : agree_from 3 source_a source_b.
Proof.
  intros i Hi. unfold source_a, source_b.
  destruct (Nat.ltb_spec i 3); [lia | reflexivity].
Defined.

(** Two sources that agree from the cursor on replay the same run. *)
Lemma replay_deterministic_witness :
  steps [16; 16; 4000; 16] (idle_voxel 100) source_a 3%nat =
  steps [16; 16; 4000; 16] (idle_voxel 100) source_b 3%nat.
Proof.
  apply (proj1 (replay_deterministic source_a source_b 3 sources_agree)
           [16; 16; 4000; 16] (idle_voxel 100)).
Defined.

(** A yellow section going from 30% to 45% visible. *)
Lemma upward_crossing_sets_color_witness :
  exists e,
    Watcher.notify Watcher.threshold (section_of "#FFC72C") 0.30 0.45 = Some e /\
    Watcher.backgroundColor
      (Watcher.callback [e] {| Watcher.backgroundColor := "#000000" |})
    = "#FFC72C"%string.
Proof.
  apply (proj2 (proj2 upward_crossing_sets_color)
           (section_of "#FFC72C") "#FFC72C"%string
           {| Watcher.backgroundColor := "#000000" |}).
  reflexivity.
Defined.

(** A reset under a source that always yields 0.25 lands at (-23, 0, -23). *)
Lemma reset_position_half_range_witness :
  exists v',
    reset (idle_voxel 0) (fun _ => 0.25) 0%nat = Some (v', 3%nat) /\
    spawned_at (position (mesh v')) 0.25 0.25.
Proof.
  apply (proj1 (reset_position_half_range (fun _ => 0.25) quarter_source)
           (idle_voxel 0) 0%nat).
Defined.

(* ================================================================== *)
(** * Further properties of the code *)

(** ** The watcher: which entry of a batch decides the colour *)



(** ** [startRoll]: which move a random value selects *)

Lemma index_out_of_range {A : Type} (arr : list A) (i : Z) :
  (i < 0 \/ Z.of_nat (List.length arr) <= i)%Z -> Js.index arr i = None.
Proof.
  intros H. unfold Js.index. destruct (Z.ltb_spec i 0); [reflexivity |].
  apply nth_error_None. lia.
Qed.

(** X2: [startRoll] cuts [0, 1) into four quarters, one per move, in the
    order Right, Left, Forward, Backward; a value outside [0, 1) finds no
    move and the call raises. *)
Theorem startRoll_move_by_quarter (v : RollingVoxel) (rnd : Rand) (k : nat) :
  (0 <= rnd k < 1 / 4 ->
   startRoll v rnd k = Some (started v (Vec3 1 0 0) (Vec3 0 0 (-1)), S k)) /\
  (1 / 4 <= rnd k < 1 / 2 ->
   startRoll v rnd k = Some (started v (Vec3 (-1) 0 0) (Vec3 0 0 1), S k)) /\
  (1 / 2 <= rnd k < 3 / 4 ->
   startRoll v rnd k = Some (started v (Vec3 0 0 1) (Vec3 1 0 0), S k)) /\
  (3 / 4 <= rnd k < 1 ->
   startRoll v rnd k = Some (started v (Vec3 0 0 (-1)) (Vec3 (-1) 0 0), S k)) /\
  (rnd k < 0 \/ 1 <= rnd k -> startRoll v rnd k = None).
Proof.
  repeat split; intros H.
  - apply startRoll_run. rewrite (floor_eq (rnd k * 4) 0) by lra. reflexivity.
  - apply startRoll_run. rewrite (floor_eq (rnd k * 4) 1) by lra. reflexivity.
  - apply startRoll_run. rewrite (floor_eq (rnd k * 4) 2) by lra. reflexivity.
  - apply startRoll_run. rewrite (floor_eq (rnd k * 4) 3) by lra. reflexivity.
  - unfold startRoll, bind, Math_random.
    rewrite index_out_of_range; [reflexivity |].
    destruct (floor_bounds (rnd k * 4)) as [Hlo Hhi].
    cbn [dirs List.length Z.of_nat].
    destruct H as [H | H].
    + left. apply lt_IZR. lra.
    + right.
      assert (H3 : IZR 3 < IZR (Js.Math_floor (rnd k * 4))) by lra.
      apply lt_IZR in H3. lia.
Qed.

(** ** The idle countdown *)

(** X3: an idle voxel whose wait outlasts the elapsed times of a run stays
    idle, keeps its mesh, draws no random value, and its
    timer is the wait minus the sum of the elapsed times; the first call
    that brings the timer to 0 or below starts the roll, with the transform
    as the snapshots. *)
Theorem idle_countdown (deltas : list R) :
  forall (v : RollingVoxel) (rnd : Rand) (k : nat),
    isMoving v = false ->
    keeps_waiting (waitTimer v) deltas ->
    exists v',
      run deltas v rnd k = Some (v', k) /\
      isMoving v' = false /\
      mesh v' = mesh v /\
      waitTimer v' = waitTimer v - total deltas /\
      (forall dt,
          waitTimer v - total deltas - dt <= 0 ->
          0 <= rnd k < 1 ->
          exists v'',
            run (deltas ++ [dt]) v rnd k = Some (v'', S k) /\
            isMoving v'' = true /\
            rollProgress v'' = Some 0 /\
            startPosition v'' = Some (position (mesh v)) /\
            startQuaternion v'' = Some (quaternion (mesh v))).
Proof.
  induction deltas as [| d rest IH]; intros v rnd k Hm Hw.
  - exists v. cbn [run total]. split; [reflexivity |]. split; [exact Hm |].
    split; [reflexivity |]. split; [lra |].
    intros dt Hdt Hu. destruct (choose_move _ Hu) as (dv & ax & Hi & _).
    assert (Hdt' : waitTimer v - dt <= 0) by lra.
    cbn [app run]. unfold bind.
    rewrite (step_idle_start _ _ _ _ _ _ Hm Hdt' Hi).
    eexists. split; [reflexivity |]. cbn. repeat split.
  - cbn [keeps_waiting] in Hw. destruct Hw as [Hd Hrest].
    destruct (IH (set_waitTimer (waitTimer v - d) v) rnd k Hm Hrest)
      as (v' & Hr & Hm' & Hmesh & Ht & Hnext).
    exists v'. cbn [run total]. unfold bind.
    rewrite (step_idle_wait _ _ _ _ Hm Hd).
    split; [exact Hr |]. split; [exact Hm' |]. split; [exact Hmesh |].
    cbn [set_waitTimer waitTimer] in Ht.
    split; [rewrite Ht; lra |].
    intros dt Hdt Hu.
    destruct (Hnext dt) as (v'' & Hr'' & H1 & H2 & H3 & H4).
    + cbn [set_waitTimer waitTimer]. lra.
    + exact Hu.
    + exists v''. cbn [app run]. unfold bind.
      rewrite (step_idle_wait _ _ _ _ Hm Hd).
      split; [exact Hr'' |]. repeat split; assumption.
Qed.

(** ** How long a roll lasts *)

(** X4: a roll lasts seventeen calls of [step], whatever the elapsed times:
    after up to sixteen calls the voxel is still rolling, with the progress
    at the number of calls times the speed constant and no random value
    drawn; the seventeenth call ends the roll, recycled or not. *)
Theorem roll_lasts_seventeen_steps (v : RollingVoxel) (d ax pv sp : Vector3)
        (sq : Quaternion) (rnd : Rand) (k : nat) :
  isMoving v = true ->
  roll_fields v 0 d ax pv sp sq ->
  (forall deltas,
      (List.length deltas <= 16)%nat ->
      exists v',
        run deltas v rnd k = Some (v', k) /\
        isMoving v' = true /\
        rollProgress v' = Some (INR (List.length deltas) * SETTINGS.moveSpeed)) /\
  (forall deltas,
      List.length deltas = 17%nat ->
      exists v' k',
        run deltas v rnd k = Some (v', k') /\
        isMoving v' = false /\
        (k' = S k \/ k' = S (S (S (S k))))).
Proof.
  intros Hm Hf.
  assert (Hspeed : SETTINGS.moveSpeed = 0.06) by reflexivity.
  assert (Hmid : forall deltas,
             (List.length deltas <= 16)%nat ->
             exists v',
               run deltas v rnd k = Some (v', k) /\
               isMoving v' = true /\
               roll_fields v' (0 + INR (List.length deltas) * SETTINGS.moveSpeed)
                           d ax pv sp sq).
  { intros deltas Hlen.
    destruct (run_rolling deltas v 0 d ax pv sp sq rnd k Hm Hf)
      as (v' & Hr & Hm' & _ & Hf').
    - apply le_INR in Hlen. rewrite Hspeed. simpl INR in Hlen. lra.
    - exists v'. repeat split; try assumption; apply Hf'. }
  split.
  - intros deltas Hlen. destruct (Hmid deltas Hlen) as (v' & Hr & Hm' & Hf').
    exists v'. split; [exact Hr |]. split; [exact Hm' |].
    destruct Hf' as [Hp _]. rewrite Hp. f_equal. lra.
  - intros deltas Hlen.
    assert (Hsplit : deltas = firstn 16 deltas ++ skipn 16 deltas)
      by (symmetry; apply firstn_skipn).
    assert (Hl1 : List.length (firstn 16 deltas) = 16%nat)
      by (rewrite length_firstn; lia).
    assert (Hl2 : List.length (skipn 16 deltas) = 1%nat)
      by (rewrite length_skipn; lia).
    destruct (skipn 16 deltas) as [| dtl [| ? ?]]; try discriminate.
    destruct (Hmid (firstn 16 deltas)) as (v16 & Hr & Hm16 & Hf16); [lia |].
    rewrite Hl1 in Hf16.
    rewrite Hsplit, run_app, Hr. cbn [run]. unfold bind.
    rewrite (step_moving _ _ Hm16).
    rewrite (animateRoll_end _ _ _ _ _ _ _ rnd k Hf16).
    2:{ rewrite Hspeed. simpl INR. lra. }
    cbv zeta. destruct (past_range (add sp d)).
    + rewrite reset_run. eexists; eexists. split; [reflexivity |].
      split; [reflexivity | right; reflexivity].
    + eexists; eexists. split; [reflexivity |].
      split; [reflexivity | left; reflexivity].
Qed.

(** ** The arc of a roll *)

(** The rolling math about the pivot of [startRoll], in closed form. *)
Lemma roll_arc s sp d ax angle :
  In (d, ax) dirs ->
  add (applyAxisAngle (sub sp (pivot_of s sp d)) ax angle) (pivot_of s sp d)
  = arc_position s sp d angle.
Proof.
  intros Hin. rewrite (applyAxisAngle_rotate _ _ _ (dirs_unit_axis d ax Hin)).
  destruct sp as [s1 s2 s3].
  each_move Hin;
    unfold arc_position, rotate_about, pivot_of, add, sub, multiplyScalar,
      cross, dot; cbn [x y z]; apply Vector3_eq; field.
Qed.

Lemma quarter_angle p : 0 <= p <= 1 -> 0 <= PI / 2 * p <= PI / 2.
Proof. intros Hp. pose proof PI_RGT_0. split; nra. Qed.

Lemma sin_cos_quarter t :
  0 <= t <= PI / 2 ->
  0 <= sin t <= 1 /\ 0 <= cos t <= 1 /\ 1 <= sin t + cos t <= sqrt 2.
Proof.
  intros Ht. pose proof PI_RGT_0 as Hpi.
  assert (Hs : 0 <= sin t) by (apply sin_ge_0; lra).
  assert (Hc : 0 <= cos t) by (apply cos_ge_0; lra).
  pose proof (sin2_cos2 t) as H. unfold Rsqr in H.
  pose proof (SIN_bound t) as [_ Hs1]. pose proof (COS_bound t) as [_ Hc1].
  assert (Hsc : 0 <= sin t * cos t) by (apply Rmult_le_pos; assumption).
  pose proof (Rle_0_sqr (sin t - cos t)) as Hd. unfold Rsqr in Hd.
  split; [lra |]. split; [lra |]. split.
  - destruct (Rle_or_lt 1 (sin t + cos t)) as [Hle | Hlt]; [exact Hle |].
    assert (Hprod : 0 < (1 - (sin t + cos t)) * (1 + (sin t + cos t)))
      by (apply Rmult_lt_0_compat; lra).
    lra.
  - rewrite <- (sqrt_square (sin t + cos t)) by lra.
    apply sqrt_le_1_alt. lra.
Qed.

(** X5: during a roll the centre of the cube follows the arc about the
    leading bottom edge: for the progress [p] and the angle [PI / 2 * p] the
    rolling step puts it at the start position plus
    [size / 2 * (1 + sin - cos)] along the direction and
    [size / 2 * (sin + cos - 1)] upward.  So for a progress of [0, 1] the
    cube never dips below its rest height, never rises more than
    [size / 2 * (sqrt 2 - 1)], advances between 0 and [size] along the
    direction and does not move sideways. *)
Theorem rolling_follows_arc (v : RollingVoxel) (p : R) (sp d ax : Vector3)
        (sq : Quaternion) :
  In (d, ax) dirs ->
  0 <= size v ->
  0 <= p <= 1 ->
  let pos := position (mesh (roll_to v p sp (pivot_of (size v) sp d) ax sq)) in
  let advance := size v / 2 * (1 + sin (PI / 2 * p) - cos (PI / 2 * p)) in
  pos = arc_position (size v) sp d (PI / 2 * p) /\
  x pos = x sp + x d * advance /\
  z pos = z sp + z d * advance /\
  0 <= advance <= size v /\
  y sp <= y pos <= y sp + size v / 2 * (sqrt 2 - 1).
Proof.
  intros Hin Hs Hp pos advance.
  assert (Hpos : pos = arc_position (size v) sp d (PI / 2 * p)).
  { unfold pos, roll_to.
    cbn [set_mesh set_quaternion set_position mesh position].
    apply (roll_arc _ _ _ _ _ Hin). }
  destruct (sin_cos_quarter _ (quarter_angle p Hp)) as (Hsin & Hcos & Hsum).
  split; [exact Hpos |]. rewrite Hpos.
  unfold advance, arc_position, add, multiplyScalar. cbn [x y z].
  set (sn := sin (PI / 2 * p)) in *. set (cs := cos (PI / 2 * p)) in *.
  assert (Hyd : y d = 0) by (each_move Hin; reflexivity).
  rewrite Hyd. clear Hpos pos advance.
  assert (H1 : 0 <= size v / 2 * (1 + sn - cs) <= size v).
  { clearbody sn cs. generalize dependent (size v). intros s Hs. split; nra. }
  assert (H2 : 0 <= size v / 2 * (sn + cs - 1) <= size v / 2 * (sqrt 2 - 1)).
  { clearbody sn cs. generalize dependent (size v). intros s Hs _.
    assert (Ha : 0 <= s * (sn + cs - 1)) by (apply Rmult_le_pos; lra).
    assert (Hb : 0 <= s * (sqrt 2 - (sn + cs))) by (apply Rmult_le_pos; lra).
    lra. }
  repeat split; lra.
Qed.

(** Unit quaternions turn vectors without changing their length. *)
Lemma applyQuaternion_length v q :
  norm2 q = 1 -> dot (applyQuaternion v q) (applyQuaternion v q) = dot v v.
Proof.
  destruct q as [q1 q2 q3 q4], v as [v1 v2 v3].
  unfold norm2, dot, applyQuaternion. cbn [x y z qx qy qz qw].
  intros Hq. nsatz.
Qed.

(** X6: whatever the angle, the rolling math keeps the centre of the cube at
    its initial distance from the pivot; with the pivot of [startRoll] that
    squared distance is [size * size / 2], half the diagonal of a face. *)
Theorem rolling_keeps_pivot_distance (v : RollingVoxel) (p : R)
        (sp pv ax : Vector3) (sq : Quaternion) :
  unit_vector ax ->
  let pos := position (mesh (roll_to v p sp pv ax sq)) in
  dot (sub pos pv) (sub pos pv) = dot (sub sp pv) (sub sp pv) /\
  (forall d, In (d, ax) dirs -> pv = pivot_of (size v) sp d ->
             dot (sub pos pv) (sub pos pv) = size v * size v / 2).
Proof.
  intros Hax pos.
  assert (H : dot (sub pos pv) (sub pos pv) = dot (sub sp pv) (sub sp pv)).
  { unfold pos, roll_to.
    cbn [set_mesh set_quaternion set_position mesh position].
    replace (sub (add (applyAxisAngle (sub sp pv) ax (PI / 2 * p)) pv) pv)
      with (applyAxisAngle (sub sp pv) ax (PI / 2 * p)).
    - unfold applyAxisAngle. apply applyQuaternion_length.
      apply norm2_setFromAxisAngle, Hax.
    - destruct (applyAxisAngle (sub sp pv) ax (PI / 2 * p)) as [a b c].
      unfold sub, add. cbn [x y z]. apply Vector3_eq; ring. }
  split; [exact H |].
  intros d Hin Hpv. rewrite H, Hpv. destruct sp as [s1 s2 s3].
  each_move Hin; unfold pivot_of, dot, sub, add, multiplyScalar; cbn [x y z];
    field.
Qed.

(** X7: the snap continues the arc.  At progress 1 the rolling math gives
    the start position plus [size] times the direction and the start
    orientation turned by exactly [PI / 2]; with the cube size 1 of the
    constructor these are the position and the orientation that the end
    step assigns. *)
Theorem snap_is_end_of_arc (v : RollingVoxel) (u : R) (sp d ax : Vector3)
        (sq : Quaternion) :
  In (d, ax) dirs ->
  let last := roll_to v 1 sp (pivot_of (size v) sp d) ax sq in
  position (mesh last) = add sp (multiplyScalar d (size v)) /\
  quaternion (mesh last) = premultiply sq (setFromAxisAngle ax (PI / 2)) /\
  (size v = 1 -> mesh last = mesh (snapped v 1 u sp d ax sq)).
Proof.
  intros Hin last.
  assert (Hp : position (mesh last) = add sp (multiplyScalar d (size v))).
  { unfold last, roll_to.
    cbn [set_mesh set_quaternion set_position mesh position].
    rewrite (roll_arc _ _ _ _ _ Hin). unfold arc_position.
    replace (PI / 2 * 1) with (PI / 2) by lra. rewrite sin_PI2, cos_PI2.
    destruct sp as [s1 s2 s3], d as [d1 d2 d3].
    unfold add, multiplyScalar. cbn [x y z]. apply Vector3_eq; field. }
  assert (Hq : quaternion (mesh last) = premultiply sq (setFromAxisAngle ax (PI / 2))).
  { unfold last, roll_to.
    cbn [set_mesh set_quaternion set_position mesh quaternion].
    replace (PI / 2 * 1) with (PI / 2) by lra. reflexivity. }
  split; [exact Hp |]. split; [exact Hq |].
  intros Hs.
  assert (Hp' : position (mesh last) = add sp d).
  { rewrite Hp, Hs. destruct d as [d1 d2 d3].
    unfold add, multiplyScalar. cbn [x y z]. apply Vector3_eq; ring. }
  destruct (mesh last) as [c0 p0 q0] eqn:E.
  cbn [position quaternion] in Hp', Hq. subst p0 q0.
  unfold snapped, premultiply. cbn [mesh]. f_equal.
  assert (Hc : color (mesh last) = color (mesh v)) by reflexivity.
  rewrite E in Hc. exact Hc.
Qed.

(** ** Voxels stay in the field *)

Lemma past_range_false_inv p :
  past_range p = false ->
  Rabs (x p) <= SETTINGS.spawnRange /\ Rabs (z p) <= SETTINGS.spawnRange.
Proof.
  unfold past_range, Js.Math_abs, Js.gt. intros H.
  apply orb_false_elim in H. destruct H as [Hx Hz].
  destruct (Rgt_dec (Rabs (x p)) SETTINGS.spawnRange); [discriminate |].
  destruct (Rgt_dec (Rabs (z p)) SETTINGS.spawnRange); [discriminate |].
  split; lra.
Qed.

Lemma Rabs_le_bounds a b : Rabs a <= b -> - b <= a <= b.
Proof. unfold Rabs. destruct (Rcase_abs a); lra. Qed.

Lemma arc_position_zero s sp d : arc_position s sp d (PI / 2 * 0) = sp.
Proof.
  unfold arc_position. replace (PI / 2 * 0) with 0 by lra.
  rewrite sin_0, cos_0. destruct sp as [s1 s2 s3].
  unfold add, multiplyScalar. cbn [x y z]. apply Vector3_eq; field.
Qed.

(** Where the arc of a cube of size 1 can be, from a start in the field. *)
Lemma arc_in_field sp d ax p :
  In (d, ax) dirs -> in_field sp -> 0 <= p <= 1 ->
  0 <= y (arc_position 1 sp d (PI / 2 * p)) <= (sqrt 2 - 1) / 2 /\
  Rabs (x (arc_position 1 sp d (PI / 2 * p))) <= SETTINGS.spawnRange + 1 /\
  Rabs (z (arc_position 1 sp d (PI / 2 * p))) <= SETTINGS.spawnRange + 1.
Proof.
  intros Hin (Hy & Hx & Hz) Hp.
  destruct (sin_cos_quarter _ (quarter_angle p Hp)) as (Hsin & Hcos & Hsum).
  apply Rabs_le_bounds in Hx. apply Rabs_le_bounds in Hz.
  unfold arc_position, add, multiplyScalar. cbn [x y z].
  set (sn := sin (PI / 2 * p)) in *. set (cs := cos (PI / 2 * p)) in *.
  rewrite Hy.
  each_move Hin; cbn [x y z]; (split; [lra |]); split; apply Rabs_le; lra.
Qed.

Lemma norm2_identity : norm2 identity = 1.
Proof. unfold norm2, identity. cbn [qx qy qz qw]. lra. Qed.

Lemma reset_field_inv rnd v k :
  unit_interval rnd -> size v = 1 ->
  exists v', reset v rnd k = Some (v', S (S (S k))) /\
             isMoving v' = false /\ field_inv v'.
Proof.
  intros Hrnd Hs. rewrite reset_run. eexists. split; [reflexivity |].
  split; [reflexivity |].
  unfold field_inv. cbn [size mesh quaternion position isMoving].
  split; [exact Hs |]. split; [rewrite setFromEuler_zero; apply norm2_identity |].
  pose proof (spawn_coordinate _ (Hrnd k)) as Hx.
  pose proof (spawn_coordinate _ (Hrnd (S k))) as Hz.
  unfold in_field, SETTINGS.spawnRange in *. cbn [x y z].
  split; [reflexivity |]. split; apply Rabs_le; lra.
Qed.

(** One [step] keeps the invariant of the field, and does not raise. *)
Lemma step_field_inv rnd :
  unit_interval rnd ->
  forall v dt k,
    field_inv v ->
    exists v' k', step dt v rnd k = Some (v', k') /\ field_inv v'.
Proof.
  intros Hrnd v dt k (Hsize & Hnorm & Hinv).
  assert (Hspeed : SETTINGS.moveSpeed = 0.06) by reflexivity.
  destruct (isMoving v) eqn:Hm.
  - destruct Hinv as (rp & d & ax & sp & sq & Hf & Hin & Hrp & Hsp & Hsq & Hpos).
    rewrite (step_moving _ _ Hm).
    pose proof (dirs_unit_axis d ax Hin) as Hax.
    destruct (Rlt_or_le (rp + SETTINGS.moveSpeed) 1) as [Hlt | Hge].
    + rewrite (animateRoll_mid _ _ _ _ _ _ _ rnd k Hf Hlt).
      eexists; eexists; split; [reflexivity |].
      unfold field_inv.
      cbn [roll_to set_mesh set_rollProgress set_quaternion set_position
           isMoving size mesh quaternion position].
      rewrite Hm. split; [exact Hsize |]. split.
      * unfold premultiply.
        rewrite norm2_multiply, (norm2_setFromAxisAngle _ _ Hax), Hsq. lra.
      * exists (rp + SETTINGS.moveSpeed), d, ax, sp, sq.
        split; [apply (roll_fields_progress _ rp _ _ _ _ _ _ _ Hf) |].
        split; [exact Hin |]. split; [rewrite Hspeed in *; lra |].
        split; [exact Hsp |]. split; [exact Hsq |].
        apply (roll_arc _ _ _ _ _ Hin).
    + rewrite (animateRoll_end _ _ _ _ _ _ _ rnd k Hf (Rle_ge _ _ Hge)).
      cbv zeta. destruct (past_range (add sp d)) eqn:Hr.
      * destruct (reset_field_inv rnd
                    (snapped v (rp + SETTINGS.moveSpeed) (rnd k) sp d ax sq)
                    (S k) Hrnd Hsize) as (v' & Hv' & _ & Hinv').
        exists v', (S (S (S (S k)))). split; [exact Hv' | exact Hinv'].
      * eexists; eexists; split; [reflexivity |].
        unfold field_inv. cbn [snapped isMoving size mesh quaternion position].
        split; [exact Hsize |]. split.
        -- rewrite norm2_multiply, (norm2_setFromAxisAngle _ _ Hax), Hsq. lra.
        -- destruct (past_range_false_inv _ Hr) as [Hx Hz].
           destruct Hsp as (Hy & _ & _).
           split; [| split; assumption].
           unfold add; cbn [y]. rewrite Hy.
           each_move Hin; cbn [y]; lra.
  - destruct (Rle_or_lt (waitTimer v - dt) 0) as [Hw | Hw].
    + destruct (choose_move _ (Hrnd k)) as (d & ax & Hi & Hin).
      rewrite (step_idle_start _ _ _ _ _ _ Hm Hw Hi).
      eexists; eexists; split; [reflexivity |].
      unfold field_inv.
      cbn [started set_waitTimer isMoving size mesh].
      split; [exact Hsize |]. split; [exact Hnorm |].
      exists 0, d, ax, (position (mesh v)), (quaternion (mesh v)).
      split.
      { unfold roll_fields, pivot_of. cbn. rewrite Hsize. repeat split. }
      split; [exact Hin |]. split; [lra |]. split; [exact Hinv |].
      split; [exact Hnorm |]. symmetry. apply arc_position_zero.
    + rewrite (step_idle_wait _ _ _ _ Hm (Rlt_gt _ _ Hw)).
      eexists; eexists; split; [reflexivity |].
      unfold field_inv. cbn [set_waitTimer isMoving size mesh]. rewrite Hm.
      split; [exact Hsize |]. split; [exact Hnorm | exact Hinv].
Qed.

Lemma run_field_inv rnd :
  unit_interval rnd ->
  forall deltas v k,
    field_inv v ->
    exists v' k', run deltas v rnd k = Some (v', k') /\ field_inv v'.
Proof.
  intros Hrnd deltas. induction deltas as [| dt rest IH]; intros v k Hinv.
  - exists v, k. split; [reflexivity | exact Hinv].
  - destruct (step_field_inv rnd Hrnd v dt k Hinv) as (v1 & k1 & Hs & Hinv1).
    destruct (IH v1 k1 Hinv1) as (v' & k' & Hr & Hinv').
    exists v', k'. split; [| exact Hinv'].
    cbn [run]. unfold bind. rewrite Hs. exact Hr.
Qed.

Lemma new_voxel_field_inv rnd k :
  unit_interval rnd ->
  exists v', new_RollingVoxel rnd k = Some (v', S (S (S (S k)))) /\
             isMoving v' = false /\ field_inv v'.
Proof.
  intros Hrnd. unfold new_RollingVoxel, bind, Math_random.
  apply (reset_field_inv rnd _ (S k) Hrnd). reflexivity.
Qed.

(** Where a voxel that satisfies the invariant is. *)
Lemma field_inv_position v :
  field_inv v ->
  (isMoving v = false -> in_field (position (mesh v))) /\
  0 <= y (position (mesh v)) <= (sqrt 2 - 1) / 2 /\
  Rabs (x (position (mesh v))) <= SETTINGS.spawnRange + 1 /\
  Rabs (z (position (mesh v))) <= SETTINGS.spawnRange + 1.
Proof.
  intros (_ & _ & Hinv). destruct (isMoving v).
  - destruct Hinv as (rp & d & ax & sp & sq & _ & Hin & Hrp & Hsp & _ & Hpos).
    split; [discriminate |]. rewrite Hpos.
    apply (arc_in_field sp d ax rp Hin Hsp). lra.
  - split; [intros _; exact Hinv |].
    destruct Hinv as (Hy & Hx & Hz). rewrite Hy.
    assert (H2 : 1 <= sqrt 2).
    { rewrite <- sqrt_1 at 1. apply sqrt_le_1_alt. lra. }
    split; [lra |]. split; lra.
Qed.

(** X8: a voxel made by the constructor never leaves the field.  After any
    run of [step] calls, for a random source within [0, 1), the run has not
    raised; an idle voxel rests on the ground ([y = 0]) with [x] and [z]
    within the spawn range of 90; a rolling one is at most one cell beyond
    it, and its centre is between the rest height and [(sqrt 2 - 1) / 2]
    above it. *)
Theorem voxel_stays_in_field (rnd : Rand) (k : nat) (deltas : list R) :
  unit_interval rnd ->
  exists v0 v' k',
    new_RollingVoxel rnd k = Some (v0, S (S (S (S k)))) /\
    run deltas v0 rnd (S (S (S (S k)))) = Some (v', k') /\
    (isMoving v' = false ->
     y (position (mesh v')) = 0 /\
     Rabs (x (position (mesh v'))) <= 90 /\
     Rabs (z (position (mesh v'))) <= 90) /\
    0 <= y (position (mesh v')) <= (sqrt 2 - 1) / 2 /\
    Rabs (x (position (mesh v'))) <= 91 /\
    Rabs (z (position (mesh v'))) <= 91.
Proof.
  intros Hrnd.
  destruct (new_voxel_field_inv rnd k Hrnd) as (v0 & Hv0 & _ & Hinv0).
  destruct (run_field_inv rnd Hrnd deltas v0 (S (S (S (S k)))) Hinv0)
    as (v' & k' & Hr & Hinv').
  exists v0, v', k'. split; [exact Hv0 |]. split; [exact Hr |].
  destruct (field_inv_position v' Hinv') as (Hidle & Hy & Hx & Hz).
  unfold in_field, SETTINGS.spawnRange in *.
  split; [exact Hidle |]. split; [exact Hy |]. split; lra.
Qed.

(** X9: the orientation of a voxel made by the constructor is a unit
    quaternion after every [step], in the middle of a roll as well as at
    rest, and the cube keeps the size 1. *)
Theorem orientation_stays_unit (rnd : Rand) (k : nat) (deltas : list R) :
  unit_interval rnd ->
  exists v0 v' k',
    new_RollingVoxel rnd k = Some (v0, S (S (S (S k)))) /\
    run deltas v0 rnd (S (S (S (S k)))) = Some (v', k') /\
    norm2 (quaternion (mesh v')) = 1 /\
    size v' = 1.
Proof.
  intros Hrnd.
  destruct (new_voxel_field_inv rnd k Hrnd) as (v0 & Hv0 & _ & Hinv0).
  destruct (run_field_inv rnd Hrnd deltas v0 (S (S (S (S k)))) Hinv0)
    as (v' & k' & Hr & Hsize & Hnorm & _).
  exists v0, v', k'. repeat split; assumption.
Qed.

(** ** Whole rolls and how they compose *)

Lemma index_In {A : Type} (arr : list A) (i : Z) (a : A) :
  Js.index arr i = Some a -> In a arr.
Proof.
  unfold Js.index. destruct (i <? 0)%Z; [discriminate |].
  apply nth_error_In.
Qed.

Lemma split_last_of_17 (l : list R) :
  List.length l = 17%nat ->
  exists mids dtl, l = mids ++ [dtl] /\ List.length mids = 16%nat.
Proof.
  intros Hlen.
  assert (Hl2 : List.length (skipn 16 l) = 1%nat) by (rewrite length_skipn; lia).
  destruct (skipn 16 l) as [| dtl [| ? ?]] eqn:E; try discriminate.
  exists (firstn 16 l), dtl. split.
  - rewrite <- E. symmetry. apply firstn_skipn.
  - rewrite length_firstn. lia.
Qed.

(** An idle voxel whose wait has run out rolls one cell in eighteen calls:
    the call that starts the roll and the seventeen of the roll. *)
Lemma full_roll v dt roll d ax rnd k :
  isMoving v = false ->
  waitTimer v - dt <= 0 ->
  Js.index dirs (Js.Math_floor (rnd k * 4)) = Some (d, ax) ->
  List.length roll = 17%nat ->
  past_range (add (position (mesh v)) d) = false ->
  exists v',
    run (dt :: roll) v rnd k = Some (v', S (S k)) /\
    isMoving v' = false /\
    size v' = size v /\
    position (mesh v') = add (position (mesh v)) d /\
    quaternion (mesh v') =
      premultiply (quaternion (mesh v)) (setFromAxisAngle ax (PI / 2)) /\
    waitTimer v' = rnd (S k) * SETTINGS.maxWaitTime.
Proof.
  intros Hm Hw Hi Hlen Hr.
  destruct (split_last_of_17 roll Hlen) as (mids & dtl & -> & Hmids).
  destruct (roll_completes
              (started (set_waitTimer (waitTimer v - dt) v) d ax) d ax
              (pivot_of (size v) (position (mesh v)) d)
              (position (mesh v)) (quaternion (mesh v))
              mids dtl rnd (S k))
    as (v' & Hrun & Hm' & Hs' & Hp' & Hq' & Hw').
  - reflexivity.
  - unfold roll_fields. cbn. repeat split.
  - exact Hmids.
  - exact Hr.
  - exists v'. cbn [run]. unfold bind.
    rewrite (step_idle_start _ _ _ _ _ _ Hm Hw Hi).
    split; [exact Hrun |]. repeat split; assumption.
Qed.

(** A quarter turn about [a] followed by one about the opposite axis. *)
Lemma opposite_turns_cancel d ax d' ax' q :
  In (d, ax) dirs -> In (d', ax') dirs -> add d d' = Vec3 0 0 0 ->
  premultiply (premultiply q (setFromAxisAngle ax (PI / 2)))
              (setFromAxisAngle ax' (PI / 2)) = q.
Proof.
  intros Hin Hin' Hopp. rewrite !quarter_turn_components.
  pose proof half_sqrt2 as Hh. set (h := 1 / sqrt 2) in *. clearbody h.
  destruct q as [q1 q2 q3 q4].
  assert (E1 : h * h * q1 = q1 / 2) by (rewrite Hh; lra).
  assert (E2 : h * h * q2 = q2 / 2) by (rewrite Hh; lra).
  assert (E3 : h * h * q3 = q3 / 2) by (rewrite Hh; lra).
  assert (E4 : h * h * q4 = q4 / 2) by (rewrite Hh; lra).
  each_move Hin; each_move Hin';
    unfold add in Hopp; cbn [x y z] in Hopp; injection Hopp as H1 H2 H3;
    try lra;
    unfold premultiply, multiplyQuaternions; cbn [x y z qx qy qz qw];
    apply Quaternion_eq; lra.
Qed.

(** X10: opposite rolls undo each other.  When an idle voxel rolls one cell
    and, its new wait having run out at the next call, rolls back along the
    opposite direction, it is idle again at the position and with exactly
    the orientation it started from. *)
Theorem opposite_rolls_cancel (v : RollingVoxel) (d ax d' ax' : Vector3)
        (dt1 dt2 : R) (roll1 roll2 : list R) (rnd : Rand) (k : nat) :
  isMoving v = false ->
  waitTimer v - dt1 <= 0 ->
  Js.index dirs (Js.Math_floor (rnd k * 4)) = Some (d, ax) ->
  rnd (S k) * SETTINGS.maxWaitTime - dt2 <= 0 ->
  Js.index dirs (Js.Math_floor (rnd (S (S k)) * 4)) = Some (d', ax') ->
  add d d' = Vec3 0 0 0 ->
  past_range (position (mesh v)) = false ->
  past_range (add (position (mesh v)) d) = false ->
  List.length roll1 = 17%nat ->
  List.length roll2 = 17%nat ->
  exists v',
    run ((dt1 :: roll1) ++ dt2 :: roll2) v rnd k = Some (v', S (S (S (S k)))) /\
    isMoving v' = false /\
    position (mesh v') = position (mesh v) /\
    quaternion (mesh v') = quaternion (mesh v).
Proof.
  intros Hm Hw1 Hi1 Hw2 Hi2 Hopp Hr0 Hr1 Hl1 Hl2.
  destruct (full_roll v dt1 roll1 d ax rnd k Hm Hw1 Hi1 Hl1 Hr1)
    as (v1 & Hrun1 & Hm1 & _ & Hp1 & Hq1 & Hwait1).
  assert (Hback : add (position (mesh v1)) d' = position (mesh v)).
  { rewrite Hp1. destruct (position (mesh v)) as [p1 p2 p3].
    unfold add in *. cbn [x y z] in *. injection Hopp as H1 H2 H3.
    apply Vector3_eq; lra. }
  destruct (full_roll v1 dt2 roll2 d' ax' rnd (S (S k)))
    as (v2 & Hrun2 & Hm2 & _ & Hp2 & Hq2 & _).
  - exact Hm1.
  - rewrite Hwait1. exact Hw2.
  - exact Hi2.
  - exact Hl2.
  - rewrite Hback. exact Hr0.
  - exists v2. rewrite run_app, Hrun1.
    split; [exact Hrun2 |]. split; [exact Hm2 |].
    split; [rewrite Hp2; exact Hback |].
    rewrite Hq2, Hq1.
    apply (opposite_turns_cancel d ax d' ax');
      [apply (index_In _ _ _ Hi1) | apply (index_In _ _ _ Hi2) | exact Hopp].
Qed.

(** Two quarter turns about an axis of the table make the half turn. *)
Lemma two_quarter_turns d ax q :
  In (d, ax) dirs ->
  turned 2 ax q = multiplyQuaternions (Quat (x ax) (y ax) (z ax) 0) q.
Proof.
  intros Hin. cbn [turned]. rewrite !quarter_turn_components.
  pose proof half_sqrt2 as Hh. set (h := 1 / sqrt 2) in *. clearbody h.
  destruct q as [q1 q2 q3 q4].
  assert (E1 : h * h * q1 = q1 / 2) by (rewrite Hh; lra).
  assert (E2 : h * h * q2 = q2 / 2) by (rewrite Hh; lra).
  assert (E3 : h * h * q3 = q3 / 2) by (rewrite Hh; lra).
  assert (E4 : h * h * q4 = q4 / 2) by (rewrite Hh; lra).
  each_move Hin;
    unfold premultiply, multiplyQuaternions; cbn [x y z qx qy qz qw];
    apply Quaternion_eq; lra.
Qed.

Lemma four_quarter_turns d ax q :
  In (d, ax) dirs -> turned 4 ax q = negated q.
Proof.
  intros Hin.
  change (turned 4 ax q) with (turned 2 ax (turned 2 ax q)).
  rewrite !(two_quarter_turns d ax _ Hin).
  destruct q as [q1 q2 q3 q4].
  each_move Hin; unfold multiplyQuaternions, negated; cbn [x y z qx qy qz qw];
    apply Quaternion_eq; ring.
Qed.

Lemma applyQuaternion_negated u q :
  applyQuaternion u (negated q) = applyQuaternion u q.
Proof.
  destruct q as [q1 q2 q3 q4], u as [u1 u2 u3].
  unfold applyQuaternion, negated. cbn [x y z qx qy qz qw].
  apply Vector3_eq; ring.
Qed.

Lemma several_rolls_cons dt roll rolls :
  several_rolls dt (roll :: rolls) = (dt :: roll) ++ several_rolls dt rolls.
Proof. reflexivity. Qed.

(** X11: rolls compose.  A voxel that draws the same move [n] times in a
    row, each new wait running out at the next call, and that stays within
    the spawn range, is idle after [18 * n] calls, [n] cells further along
    the direction and turned by [n] quarter turns about the axis; it has
    drawn [2 * n] random values.  After four such rolls the orientation is
    the initial quaternion negated, which turns every vector as the initial
    orientation does. *)
Theorem rolls_in_a_row (d ax : Vector3) (dt : R) (rnd : Rand)
        (rolls : list (list R)) :
  forall (v : RollingVoxel) (k : nat),
    isMoving v = false ->
    waitTimer v - dt <= 0 ->
    (forall i, (i < List.length rolls)%nat ->
               Js.index dirs (Js.Math_floor (rnd (k + 2 * i)%nat * 4)) = Some (d, ax) /\
               rnd (S (k + 2 * i)) * SETTINGS.maxWaitTime - dt <= 0) ->
    Forall (fun roll => List.length roll = 17%nat) rolls ->
    (forall j, (1 <= j <= List.length rolls)%nat ->
               past_range (add (position (mesh v)) (multiplyScalar d (INR j))) = false) ->
    exists v',
      run (several_rolls dt rolls) v rnd k
        = Some (v', (k + 2 * List.length rolls)%nat) /\
      isMoving v' = false /\
      position (mesh v') =
        add (position (mesh v)) (multiplyScalar d (INR (List.length rolls))) /\
      quaternion (mesh v') = turned (List.length rolls) ax (quaternion (mesh v)) /\
      (List.length rolls = 4%nat ->
       quaternion (mesh v') = negated (quaternion (mesh v)) /\
       forall u, applyQuaternion u (quaternion (mesh v'))
                 = applyQuaternion u (quaternion (mesh v))).
Proof.
  induction rolls as [| roll rest IH]; intros v k Hm Hw Hrnd Hlen Hrange.
  - exists v. cbn [several_rolls map List.concat run List.length turned INR].
    split; [unfold ret; f_equal; f_equal; lia |].
    split; [exact Hm |]. split.
    + destruct (position (mesh v)) as [p1 p2 p3].
      unfold add, multiplyScalar. cbn [x y z]. apply Vector3_eq; ring.
    + split; [reflexivity | discriminate].
  - cbn [List.length] in *.
    destruct (Hrnd 0%nat) as [Hi0 Hw0]; [lia |].
    replace (k + 2 * 0)%nat with k in Hi0, Hw0 by lia.
    inversion Hlen as [| ? ? Hl17 Hrest]; subst.
    assert (Hr1 : past_range (add (position (mesh v)) d) = false).
    { rewrite <- (Hrange 1%nat) by lia. f_equal. f_equal.
      destruct d as [d1 d2 d3]. unfold multiplyScalar. cbn [x y z INR].
      apply Vector3_eq; ring. }
    destruct (full_roll v dt roll d ax rnd k Hm Hw Hi0 Hl17 Hr1)
      as (v1 & Hrun1 & Hm1 & _ & Hp1 & Hq1 & Hwait1).
    assert (Hshift : forall j,
               add (position (mesh v1)) (multiplyScalar d (INR j))
               = add (position (mesh v)) (multiplyScalar d (INR (S j)))).
    { intros j. rewrite Hp1, S_INR.
      destruct (position (mesh v)) as [p1 p2 p3], d as [d1 d2 d3].
      unfold add, multiplyScalar. cbn [x y z]. apply Vector3_eq; ring. }
    destruct (IH v1 (S (S k))) as (v' & Hrun & Hm' & Hp' & Hq' & _).
    + exact Hm1.
    + rewrite Hwait1. exact Hw0.
    + intros i Hi. destruct (Hrnd (S i)) as [Ha Hb]; [lia |].
      replace (k + 2 * S i)%nat with (S (S k) + 2 * i)%nat in Ha, Hb by lia.
      split; assumption.
    + exact Hrest.
    + intros j Hj. rewrite Hshift. apply Hrange. lia.
    + assert (Hq : quaternion (mesh v')
                   = turned (S (List.length rest)) ax (quaternion (mesh v))).
      { rewrite Hq', Hq1. reflexivity. }
      exists v'. rewrite several_rolls_cons, run_app, Hrun1.
      split.
      { rewrite Hrun. f_equal. f_equal. lia. }
      split; [exact Hm' |].
      split; [rewrite Hp'; apply Hshift |].
      split; [exact Hq |].
      intros H4. rewrite Hq, H4.
      assert (Hin : In (d, ax) dirs) by (apply (index_In _ _ _ Hi0)).
      rewrite (four_quarter_turns d ax _ Hin).
      split; [reflexivity |]. intros u. apply applyQuaternion_negated.
Qed.

(** ** The field as a whole *)

Lemma palette_draw u :
  0 <= u < 1 ->
  exists c,
    Js.index SETTINGS.colors
      (Js.Math_floor (u * INR (List.length SETTINGS.colors))) = Some c /\
    In c SETTINGS.colors.
Proof.
  intros Hu. cbn [SETTINGS.colors List.length]. simpl INR.
  assert (H : (0 <= Js.Math_floor (u * (1 + 1 + 1)) < 3)%Z)
    by (apply floor_range; lra).
  assert (Hc : Js.Math_floor (u * (1 + 1 + 1)) = 0%Z \/
               Js.Math_floor (u * (1 + 1 + 1)) = 1%Z \/
               Js.Math_floor (u * (1 + 1 + 1)) = 2%Z) by lia.
  destruct Hc as [-> | [-> | ->]];
    eexists; (split; [reflexivity |]); unfold SETTINGS.colors; cbn [In]; tauto.
Qed.

Lemma new_voxel_spawned rnd k :
  unit_interval rnd ->
  exists v,
    new_RollingVoxel rnd k = Some (v, (k + 4)%nat) /\ freshly_spawned v.
Proof.
  intros Hrnd. unfold new_RollingVoxel, bind, Math_random. rewrite reset_run.
  eexists. split; [f_equal; f_equal; lia |].
  unfold freshly_spawned.
  cbn [isMoving size mesh quaternion color position waitTimer rollProgress
       startPosition x y z].
  pose proof (spawn_coordinate _ (Hrnd (S k))) as Hx.
  pose proof (spawn_coordinate _ (Hrnd (S (S k)))) as Hz.
  pose proof (Hrnd (S (S (S k)))) as Hw.
  split; [reflexivity |]. split; [reflexivity |].
  split; [apply setFromEuler_zero |].
  split; [apply palette_draw, Hrnd |].
  split; [unfold on_lattice; cbn [x y z]; repeat split; apply integral_IZR |].
  split; [reflexivity |]. split; [exact Hx |]. split; [exact Hz |].
  split; [unfold SETTINGS.maxWaitTime; lra |]. split; reflexivity.
Qed.

Lemma spawn_spawned rnd :
  unit_interval rnd ->
  forall n k,
    exists vs,
      spawn n rnd k = Some (vs, (k + 4 * n)%nat) /\
      List.length vs = n /\
      Forall freshly_spawned vs.
Proof.
  intros Hrnd n. induction n as [| n IH]; intros k.
  - exists []. cbn [spawn]. unfold ret.
    split; [f_equal; f_equal; lia |]. split; [reflexivity | constructor].
  - destruct (new_voxel_spawned rnd k Hrnd) as (v & Hv & Hsp).
    destruct (IH (k + 4)%nat) as (vs & Hvs & Hlen & Hall).
    exists (v :: vs). cbn [spawn]. unfold bind. rewrite Hv, Hvs. unfold ret.
    split; [f_equal; f_equal; lia |].
    split; [cbn [List.length]; rewrite Hlen; reflexivity |].
    constructor; assumption.
Qed.


Lemma freshly_spawned_field_inv v : freshly_spawned v -> field_inv v.
Proof.
  intros (Hm & Hs & Hq & _ & _ & Hy & Hx & Hz & _).
  unfold field_inv. rewrite Hm, Hq.
  split; [exact Hs |]. split; [apply norm2_identity |].
  unfold in_field, SETTINGS.spawnRange.
  split; [exact Hy |]. split; apply Rabs_le; lra.
Qed.

Lemma field_inv_on_stage v : field_inv v -> on_stage v.
Proof.
  intros Hinv. destruct (field_inv_position v Hinv) as (Hidle & Hy & Hx & Hz).
  destruct Hinv as (_ & Hn & _).
  unfold on_stage, in_field, SETTINGS.spawnRange in *.
  split; [exact Hn |]. split; [exact Hy |]. split; [lra |]. split; [lra |].
  exact Hidle.
Qed.

Lemma forEach_field_inv rnd dt :
  unit_interval rnd ->
  forall l k,
    Forall field_inv l ->
    exists l' k',
      forEach (step dt) l rnd k = Some (l', k') /\
      List.length l' = List.length l /\
      Forall field_inv l'.
Proof.
  intros Hrnd l. induction l as [| v rest IH]; intros k Hall.
  - exists [], k. repeat split. constructor.
  - inversion Hall as [| ? ? Hv Hrest]; subst.
    destruct (step_field_inv rnd Hrnd v dt k Hv) as (v' & k1 & Hs & Hv').
    destruct (IH k1 Hrest) as (l' & k' & Hf & Hlen & Hall').
    exists (v' :: l'), k'. cbn [forEach]. unfold bind. rewrite Hs, Hf.
    split; [reflexivity |].
    split; [cbn [List.length]; rewrite Hlen; reflexivity |].
    constructor; assumption.
Qed.

Lemma frames_field_inv rnd :
  unit_interval rnd ->
  forall times w k,
    Forall field_inv (voxels w) ->
    exists ws k',
      frames times w rnd k = Some (ws, k') /\
      map lastTime ws = times /\
      Forall (fun w' => List.length (voxels w') = List.length (voxels w) /\
                        Forall field_inv (voxels w')) ws.
Proof.
  intros Hrnd times. induction times as [| t rest IH]; intros w k Hall.
  - exists [], k. repeat split. constructor.
  - destruct (forEach_field_inv rnd (t - lastTime w) Hrnd (voxels w) k Hall)
      as (vs & k1 & Hf & Hlen & Hall1).
    destruct (IH {| lastTime := t; voxels := vs |} k1 Hall1)
      as (ws & k' & Hfr & Htimes & Hws).
    exists ({| lastTime := t; voxels := vs |} :: ws), k'.
    cbn [frames]. unfold animate, bind. rewrite Hf. unfold ret at 1.
    fold (bind (frames rest {| lastTime := t; voxels := vs |})
               (fun ws0 => ret ({| lastTime := t; voxels := vs |} :: ws0))).
    unfold bind. rewrite Hfr. unfold ret.
    split; [reflexivity |].
    split; [cbn [map lastTime]; rewrite Htimes; reflexivity |].
    constructor.
    + cbn [voxels]. split; assumption.
    + cbn [voxels] in Hws. rewrite <- Hlen.
      exact Hws.
Qed.

(** X13: the animation loop never raises.  For a random source within
    [0, 1) and any timestamps whatever (increasing or not), building the
    field and running the frames succeeds; every frame records its
    timestamp, still has the fifty voxels, and each of them is on stage: a
    unit orientation, the centre at most one cell beyond the spawn range
    and never below the rest height, and at rest on the ground within the
    range. *)
Theorem field_never_raises (rnd : Rand) (times : list R) :
  unit_interval rnd ->
  exists w0 ws k',
    init rnd 0%nat = Some (w0, 200%nat) /\
    frames times w0 rnd 200%nat = Some (ws, k') /\
    map lastTime ws = times /\
    Forall (fun w => List.length (voxels w) = 50%nat /\
                     Forall on_stage (voxels w)) ws.
Proof.
  intros Hrnd.
  destruct (spawn_spawned rnd Hrnd SETTINGS.voxelCount 0%nat)
    as (vs & Hvs & Hlen & Hall).
  set (w0 := {| lastTime := 0; voxels := vs |}).
  assert (Hinv0 : Forall field_inv (voxels w0)).
  { cbn [w0 voxels]. apply Forall_impl with (P := freshly_spawned);
      [apply freshly_spawned_field_inv | exact Hall]. }
  destruct (frames_field_inv rnd Hrnd times w0 200%nat Hinv0)
    as (ws & k' & Hfr & Htimes & Hws).
  exists w0, ws, k'.
  split; [unfold init, bind; rewrite Hvs; reflexivity |].
  split; [exact Hfr |]. split; [exact Htimes |].
  apply Forall_impl with (2 := Hws).
  intros w [Hl Hf]. cbn [w0 voxels] in Hl. rewrite Hlen in Hl.
  split; [exact Hl |].
  apply Forall_impl with (2 := Hf). apply field_inv_on_stage.
Qed.

(** ** The camera and the window *)

(** X14: for a window of positive height the resize listener leaves a
    frustum centred on the view axis, [2 * zoom = 48] units tall, with the
    width-to-height ratio of the window; it keeps the near and far planes,
    sets the renderer to the size of the window, and yields the camera that
    the script builds at load time for a window of that size. *)
Theorem resize_fits_window (win : Scene.Window) (camera : Scene.OrthographicCamera)
        (r : Scene.Renderer) :
  0 < Scene.innerHeight win ->
  let camera' := fst (Scene.on_resize win camera r) in
  let r' := snd (Scene.on_resize win camera r) in
  Scene.left camera' = - Scene.right camera' /\
  Scene.bottom camera' = - Scene.top camera' /\
  Scene.top camera' - Scene.bottom camera' = 48 /\
  (Scene.right camera' - Scene.left camera') * Scene.innerHeight win =
    (Scene.top camera' - Scene.bottom camera') * Scene.innerWidth win /\
  (Scene.right camera' - Scene.left camera') /
    (Scene.top camera' - Scene.bottom camera') =
    Scene.innerWidth win / Scene.innerHeight win /\
  Scene.near camera' = Scene.near camera /\
  Scene.far camera' = Scene.far camera /\
  Scene.width r' = Scene.innerWidth win /\
  Scene.height r' = Scene.innerHeight win /\
  (forall win0, fst (Scene.on_resize win (Scene.new_camera win0) r)
                = Scene.new_camera win).
Proof.
  intros Hh camera' r'. unfold camera', r', Scene.on_resize, Scene.new_camera.
  cbn [fst snd Scene.left Scene.right Scene.top Scene.bottom Scene.near
       Scene.far Scene.width Scene.height Scene.setSize].
  unfold SETTINGS.zoom.
  repeat split; try reflexivity; try lra; field; lra.
Qed.

(** ** Waiting is measured on the clock *)

Lemma forEach_nth f l :
  forall rnd k l' k' i v,
    forEach f l rnd k = Some (l', k') ->
    nth_error l i = Some v ->
    exists v' k1 k2, nth_error l' i = Some v' /\ f v rnd k1 = Some (v', k2).
Proof.
  induction l as [| a rest IH]; intros rnd k l' k' i v H Hi.
  - destruct i; discriminate.
  - cbn [forEach] in H. unfold bind in H.
    destruct (f a rnd k) as [[a1 k1] |] eqn:Ha; [| discriminate].
    destruct (forEach f rest rnd k1) as [[rest1 k2] |] eqn:Hr; [| discriminate].
    injection H as <- <-. destruct i as [| i].
    + injection Hi as <-. exists a1, k, k1. split; [reflexivity | exact Ha].
    + cbn [nth_error] in *. apply (IH rnd k1 rest1 k2 i v Hr Hi).
Qed.

(** A call that leaves an idle voxel idle only lowers its timer. *)
Lemma step_stays_idle dt v rnd k v' k' :
  isMoving v = false ->
  step dt v rnd k = Some (v', k') ->
  isMoving v' = false ->
  v' = set_waitTimer (waitTimer v - dt) v.
Proof.
  intros Hm. unfold step. rewrite Hm. cbn [set_waitTimer waitTimer].
  destruct (Js.le (waitTimer v - dt) 0).
  - unfold startRoll, bind, Math_random.
    destruct (Js.index dirs _) as [[vec a] |]; [| discriminate].
    intros H; injection H as <- <-. discriminate.
  - intros H; injection H as <- <-. reflexivity.
Qed.

(** X15: the wait is measured on the clock, not in frames.  In every frame
    of a run through which a voxel is still waiting, its timer is the
    initial one minus the time from the initial [lastTime] to the timestamp
    of that frame, however many frames there were in between, and its mesh
    has not changed. *)
Theorem waiting_is_wall_clock (times : list R) :
  forall (w : World) (ws : list World) (rnd : Rand) (k k' i : nat)
         (v : RollingVoxel),
    frames times w rnd k = Some (ws, k') ->
    nth_error (voxels w) i = Some v ->
    isMoving v = false ->
    Forall (waiting_at i) ws ->
    Forall (fun w' =>
              exists u,
                nth_error (voxels w') i = Some u /\
                waitTimer u = waitTimer v - (lastTime w' - lastTime w) /\
                mesh u = mesh v) ws.
Proof.
  induction times as [| t rest IH]; intros w ws rnd k k' i v H Hi Hm Hidle.
  - injection H as <- <-. constructor.
  - cbn [frames] in H. unfold bind in H.
    destruct (animate t w rnd k) as [[w1 k1] |] eqn:Ha; [| discriminate].
    destruct (frames rest w1 rnd k1) as [[ws1 k2] |] eqn:Hf; [| discriminate].
    injection H as <- <-.
    inversion Hidle as [| ? ? (u1 & Hu1 & Hm1) Hidle1]; subst.
    unfold animate, bind in Ha.
    destruct (forEach (step (t - lastTime w)) (voxels w) rnd k)
      as [[vs kk] |] eqn:Hfe; [| discriminate].
    injection Ha as <- <-. cbn [voxels] in Hu1.
    destruct (forEach_nth _ _ _ _ _ _ _ _ Hfe Hi) as (v1 & ka & kb & Hv1 & Hs).
    rewrite Hu1 in Hv1. injection Hv1 as <-.
    pose proof (step_stays_idle _ _ _ _ _ _ Hm Hs Hm1) as Eu.
    constructor.
    + exists u1. cbn [voxels lastTime]. split; [exact Hu1 |].
      rewrite Eu. split; reflexivity.
    + specialize (IH {| lastTime := t; voxels := vs |} ws1 rnd kk k2 i u1
                    Hf Hu1 Hm1 Hidle1).
      apply Forall_impl with (2 := IH).
      intros w' (u & Hu & Hw & Hmesh). exists u. split; [exact Hu |].
      cbn [lastTime] in Hw. rewrite Hw, Hmesh, Eu.
      cbn [set_waitTimer waitTimer mesh]. split; [lra | reflexivity].
Qed.

(* ================================================================== *)
(** * The further properties at concrete inputs *)

(** The value 0.3 selects the move Left. *)
Lemma startRoll_move_by_quarter_witness :
  startRoll (idle_voxel 0) (fun _ => 0.3) 0%nat
  = Some (started (idle_voxel 0) (Vec3 (-1) 0 0) (Vec3 0 0 1), 1%nat).
Proof.
  apply (proj1 (proj2 (startRoll_move_by_quarter (idle_voxel 0) (fun _ => 0.3) 0%nat))).
  lra.
Defined.

(** A wait of 100 ms outlasts three frames of 16 ms and ends in the frame
    of 60 ms after them. *)
Lemma idle_countdown_witness :
  exists v',
    run [16; 16; 16] (idle_voxel 100) (fun _ => 0.25) 0%nat = Some (v', 0%nat) /\
    waitTimer v' = 100 - total [16; 16; 16] /\
    exists v'',
      run ([16; 16; 16] ++ [60]) (idle_voxel 100) (fun _ => 0.25) 0%nat
        = Some (v'', 1%nat) /\
      isMoving v'' = true.
Proof.
  destruct (idle_countdown [16; 16; 16] (idle_voxel 100) (fun _ => 0.25) 0%nat)
    as (v' & Hr & _ & _ & Hw & Hnext).
  - reflexivity.
  - cbn [keeps_waiting idle_voxel waitTimer]. repeat split; lra.
  - exists v'. split; [exact Hr |]. split; [exact Hw |].
    destruct (Hnext 60) as (v'' & Hr'' & Hm'' & _).
    + cbn [idle_voxel waitTimer total]. lra.
    + lra.
    + exists v''. split; assumption.
Defined.

(** A roll from the origin is still under way after sixteen calls and over
    after seventeen. *)
Lemma roll_lasts_seventeen_steps_witness :
  (exists v',
      run (repeat 16 16%nat) (rolling_voxel (Vec3 0 0 0) 0) (fun _ => 0.25) 0%nat
        = Some (v', 0%nat) /\
      isMoving v' = true) /\
  (exists v' k',
      run (repeat 16 17%nat) (rolling_voxel (Vec3 0 0 0) 0) (fun _ => 0.25) 0%nat
        = Some (v', k') /\
      isMoving v' = false).
Proof.
  destruct (roll_lasts_seventeen_steps (rolling_voxel (Vec3 0 0 0) 0)
              (Vec3 1 0 0) (Vec3 0 0 (-1)) (pivot_of 1 (Vec3 0 0 0) (Vec3 1 0 0))
              (Vec3 0 0 0) identity (fun _ => 0.25) 0%nat
              eq_refl (rolling_voxel_fields _ _)) as [Hmid Hend].
  split.
  - destruct (Hmid (repeat 16 16%nat)) as (v' & Hr & Hm & _).
    + cbn [repeat List.length]. lia.
    + exists v'. split; assumption.
  - destruct (Hend (repeat 16 17%nat) eq_refl) as (v' & k' & Hr & Hm & _).
    exists v', k'. split; assumption.
Defined.

(** Half way through a roll Right from the origin. *)
Lemma rolling_follows_arc_witness :
  position (mesh (roll_to (rolling_voxel (Vec3 0 0 0) 0.44) 0.5 (Vec3 0 0 0)
                    (pivot_of 1 (Vec3 0 0 0) (Vec3 1 0 0)) (Vec3 0 0 (-1)) identity))
  = arc_position 1 (Vec3 0 0 0) (Vec3 1 0 0) (PI / 2 * 0.5).
Proof.
  apply (rolling_follows_arc (rolling_voxel (Vec3 0 0 0) 0.44) 0.5 (Vec3 0 0 0)
           (Vec3 1 0 0) (Vec3 0 0 (-1)) identity right_move_in_dirs).
  - cbn [rolling_voxel size]. lra.
  - lra.
Defined.

Lemma back_axis_unit : unit_vector (Vec3 0 0 (-1)).
Proof. unfold unit_vector, dot. cbn [x y z]. lra. Defined.

(** Half way through a roll Right from the origin the centre is as far from
    the pivot as at the start. *)
Lemma rolling_keeps_pivot_distance_witness :
  let pv := pivot_of 1 (Vec3 0 0 0) (Vec3 1 0 0) in
  let pos := position (mesh (roll_to (rolling_voxel (Vec3 0 0 0) 0.44) 0.5
                               (Vec3 0 0 0) pv (Vec3 0 0 (-1)) identity)) in
  dot (sub pos pv) (sub pos pv) = dot (sub (Vec3 0 0 0) pv) (sub (Vec3 0 0 0) pv).
Proof.
  apply (rolling_keeps_pivot_distance (rolling_voxel (Vec3 0 0 0) 0.44) 0.5
           (Vec3 0 0 0) (pivot_of 1 (Vec3 0 0 0) (Vec3 1 0 0)) (Vec3 0 0 (-1))
           identity back_axis_unit).
Defined.

(** The arc of a roll Right from the origin ends where the snap puts the
    voxel. *)
Lemma snap_is_end_of_arc_witness :
  mesh (roll_to (rolling_voxel (Vec3 0 0 0) 0.96) 1 (Vec3 0 0 0)
          (pivot_of 1 (Vec3 0 0 0) (Vec3 1 0 0)) (Vec3 0 0 (-1)) identity)
  = mesh (snapped (rolling_voxel (Vec3 0 0 0) 0.96) 1 0.25 (Vec3 0 0 0)
            (Vec3 1 0 0) (Vec3 0 0 (-1)) identity).
Proof.
  apply (proj2 (proj2 (snap_is_end_of_arc (rolling_voxel (Vec3 0 0 0) 0.96) 0.25
                         (Vec3 0 0 0) (Vec3 1 0 0) (Vec3 0 0 (-1)) identity
                         right_move_in_dirs))).
  reflexivity.
Defined.

(** A thousand calls of 16 ms under a source that always yields 0.25. *)
Lemma voxel_stays_in_field_witness :
  exists v0 v' k',
    new_RollingVoxel (fun _ => 0.25) 0%nat = Some (v0, 4%nat) /\
    run (repeat 16 1000%nat) v0 (fun _ => 0.25) 4%nat = Some (v', k') /\
    Rabs (x (position (mesh v'))) <= 91 /\
    Rabs (z (position (mesh v'))) <= 91.
Proof.
  destruct (voxel_stays_in_field (fun _ => 0.25) 0%nat (repeat 16 1000%nat)
              quarter_source) as (v0 & v' & k' & H0 & Hr & _ & _ & Hx & Hz).
  exists v0, v', k'. repeat split; assumption.
Defined.

Lemma orientation_stays_unit_witness :
  exists v0 v' k',
    new_RollingVoxel (fun _ => 0.25) 0%nat = Some (v0, 4%nat) /\
    run (repeat 16 1000%nat) v0 (fun _ => 0.25) 4%nat = Some (v', k') /\
    norm2 (quaternion (mesh v')) = 1.
Proof.
  destruct (orientation_stays_unit (fun _ => 0.25) 0%nat (repeat 16 1000%nat)
              quarter_source) as (v0 & v' & k' & H0 & Hr & Hn & _).
  exists v0, v', k'. repeat split; assumption.
Defined.

Lemma origin_in_range : past_range (Vec3 0 0 0) = false.
Proof.
  apply past_range_false; unfold SETTINGS.spawnRange; cbn [x z];
    apply Rabs_le; lra.
Defined.

(** A roll Right from the origin and the roll Left that follows it. *)
Lemma opposite_rolls_cancel_witness :
  exists v',
    run ((16 :: repeat 16 17%nat) ++ 16 :: repeat 16 17%nat) (idle_voxel 0)
        there_and_back_rnd 0%nat = Some (v', 4%nat) /\
    isMoving v' = false /\
    position (mesh v') = Vec3 0 0 0 /\
    quaternion (mesh v') = identity.
Proof.
  apply (opposite_rolls_cancel (idle_voxel 0) (Vec3 1 0 0) (Vec3 0 0 (-1))
           (Vec3 (-1) 0 0) (Vec3 0 0 1) 16 16 (repeat 16 17%nat)
           (repeat 16 17%nat) there_and_back_rnd 0%nat).
  - reflexivity.
  - cbn [idle_voxel waitTimer]. lra.
  - cbn [there_and_back_rnd nth]. rewrite (floor_eq (0 * 4) 0) by lra. reflexivity.
  - cbn [there_and_back_rnd nth]. unfold SETTINGS.maxWaitTime. lra.
  - cbn [there_and_back_rnd nth]. rewrite (floor_eq (0.25 * 4) 1) by lra. reflexivity.
  - unfold add. cbn [x y z]. apply Vector3_eq; lra.
  - apply origin_in_range.
  - apply past_range_false; unfold add, SETTINGS.spawnRange;
      cbn [idle_voxel mesh position x z]; apply Rabs_le; lra.
  - reflexivity.
  - reflexivity.
Defined.

(** Four rolls Right from the origin, under a source that always yields 0. *)
Lemma rolls_in_a_row_witness :
  exists v',
    run (several_rolls 16 (repeat (repeat 16 17%nat) 4%nat)) (idle_voxel 0)
        (fun _ => 0) 0%nat = Some (v', 8%nat) /\
    isMoving v' = false /\
    position (mesh v') = add (Vec3 0 0 0) (multiplyScalar (Vec3 1 0 0) (INR 4)) /\
    quaternion (mesh v') = negated identity.
Proof.
  destruct (rolls_in_a_row (Vec3 1 0 0) (Vec3 0 0 (-1)) 16 (fun _ => 0)
              (repeat (repeat 16 17%nat) 4%nat) (idle_voxel 0) 0%nat)
    as (v' & Hr & Hm & Hp & _ & H4).
  - reflexivity.
  - cbn [idle_voxel waitTimer]. lra.
  - intros i _. split.
    + rewrite (floor_eq (0 * 4) 0) by lra. reflexivity.
    + unfold SETTINGS.maxWaitTime. lra.
  - repeat constructor.
  - intros j [Hj1 Hj4]. cbn [repeat List.length] in Hj4.
    apply le_INR in Hj4. pose proof (pos_INR j) as Hj0. simpl INR in Hj4.
    apply past_range_false;
      unfold add, multiplyScalar, SETTINGS.spawnRange;
      cbn [idle_voxel mesh position x z]; apply Rabs_le; lra.
  - exists v'. split; [exact Hr |]. split; [exact Hm |]. split; [exact Hp |].
    apply (proj1 (H4 eq_refl)).
Defined.


(** Three frames, the last with a timestamp behind the one before. *)
Lemma field_never_raises_witness :
  exists w0 ws k',
    init (fun _ => 0.25) 0%nat = Some (w0, 200%nat) /\
    frames [16; 5000; 33] w0 (fun _ => 0.25) 200%nat = Some (ws, k') /\
    map lastTime ws = [16; 5000; 33].
Proof.
  destruct (field_never_raises (fun _ => 0.25) [16; 5000; 33] quarter_source)
    as (w0 & ws & k' & Hi & Hf & Ht & _).
  exists w0, ws, k'. repeat split; assumption.
Defined.

(** A window of 1920 by 1080. *)
Lemma resize_fits_window_witness :
  let win := {| Scene.innerWidth := 1920; Scene.innerHeight := 1080 |} in
  let camera' :=
    fst (Scene.on_resize win
           (Scene.new_camera {| Scene.innerWidth := 800; Scene.innerHeight := 600 |})
           {| Scene.width := 800; Scene.height := 600 |}) in
  (Scene.right camera' - Scene.left camera') /
  (Scene.top camera' - Scene.bottom camera') = 1920 / 1080.
Proof.
  intros win camera'.
  apply (resize_fits_window win
           (Scene.new_camera {| Scene.innerWidth := 800; Scene.innerHeight := 600 |})
           {| Scene.width := 800; Scene.height := 600 |}).
  cbn [win Scene.innerHeight]. lra.
Defined.

(** Two frames through which a voxel with a wait of 100 ms keeps waiting. *)
Lemma two_waiting_frames :
  frames [16; 32] {| lastTime := 0; voxels := [idle_voxel 100] |} (fun _ => 0) 0%nat
  = Some ([ {| lastTime := 16; voxels := [idle_voxel (100 - (16 - 0))] |};
            {| lastTime := 32;
               voxels := [idle_voxel (100 - (16 - 0) - (32 - 16))] |} ], 0%nat).
Proof.
  cbn [frames]. unfold bind at 1. unfold animate at 1. unfold bind at 1.
  cbn [lastTime voxels forEach]. unfold bind at 1.
  rewrite step_idle_wait; [| reflexivity | cbn [idle_voxel waitTimer]; lra].
  unfold bind, ret.
  unfold animate, bind. cbn [lastTime voxels forEach]. unfold bind.
  rewrite step_idle_wait; [| reflexivity | cbn [idle_voxel set_waitTimer waitTimer]; lra].
  reflexivity.
Qed.

Lemma waiting_is_wall_clock_witness :
  Forall (fun w' =>
            exists u,
              nth_error (voxels w') 0 = Some u /\
              waitTimer u = 100 - (lastTime w' - 0) /\
              mesh u = mesh (idle_voxel 100))
         [ {| lastTime := 16; voxels := [idle_voxel (100 - (16 - 0))] |};
           {| lastTime := 32;
              voxels := [idle_voxel (100 - (16 - 0) - (32 - 16))] |} ].
Proof.
  apply (waiting_is_wall_clock [16; 32]
           {| lastTime := 0; voxels := [idle_voxel 100] |} _ (fun _ => 0)
           0%nat 0%nat 0%nat (idle_voxel 100) two_waiting_frames).
  - reflexivity.
  - reflexivity.
  - repeat constructor; eexists; split; reflexivity.
Defined.
